(** * Reddit post logger: the identifier sequencer and the append log

    A shallow embedding of [main.py].  The script has one function,
    [next_id], and two pieces of top-level code that use it: the start-up
    block that opens or creates the spreadsheet and recovers the last
    identifier, and the loop that appends one row per streamed post.

    Python values are modelled as follows.
    - A [str] is the list of its Unicode code points ([N]); [None] versus a
      string is an [option].
    - A Python [int] is a [Z].
    - A call that may raise returns a [result]; the exception classes that
      the script can meet are the constructors of [exn].
    - The spreadsheet is the tree that the odfpy queries of the script walk:
      tables, rows, cells, paragraphs, child nodes.
    - The file on disk is part of the state, next to the variables of the
      process, so that a second start can be run on what a first run left.
      A file is either a document that [load] returns or a file on which
      [load] raises.
    - What lies outside the script decides the fate of three calls: the
      save of the document, which returns or raises, before or after it
      has opened the file for writing; a [print], which returns or raises;
      and the stream, which delivers a post or raises.  These fates come
      with the events that drive the loop.  An exception, the interrupt
      from the keyboard among them, is raised by one of these calls; one
      that would arrive between two other statements is not modelled.
    - What [load] returns for a file that a save has written is a
      parameter, [reload]: odfpy and the XML parser rewrite some texts.

    The configuration block at the top of the script (the credentials and
    the connection to Reddit) has no part in what follows and is left out. *)

From Stdlib Require Import ZArith NArith Ascii String Decimal.
From stdpp Require Import base option list gmap.

Local Open Scope N_scope.

(** ** Exceptions and results *)

Inductive exn : Set :=
| ValueError
| IndexError
| AttributeError
| IOError
| BadZipFile
| KeyboardInterrupt
| UnicodeEncodeError
| BrokenPipeError
| RequestException.

Inductive result (A : Type) : Type :=
| Ok (a : A)
| Raise (e : exn).
Arguments Ok {A} a.
Arguments Raise {A} e.

#[global] Instance result_bind : MBind result := fun _ _ f m =>
  match m with
  | Ok a => f a
  | Raise e => Raise e
  end.
#[global] Instance result_fmap : FMap result := fun _ _ f m =>
  match m with
  | Ok a => Ok (f a)
  | Raise e => Raise e
  end.

#[global] Instance exn_eq_dec : EqDecision exn.
Proof. solve_decision. Defined.

#[global] Instance result_eq_dec `{EqDecision A} : EqDecision (result A).
Proof. solve_decision. Defined.

(** ** Strings *)

Abbreviation pystr := (list N).

(** A literal of the source, as code points. *)
Definition ustr (s : string) : pystr := N_of_ascii <$> list_ascii_of_string s.

(** [last[:-3]] and [last[-3:]]: a negative bound counts from the end and is
    clamped at the start of the string. *)
Definition slice_upto_minus3 (s : pystr) : pystr := take (length s - 3)%nat s.
Definition slice_from_minus3 (s : pystr) : pystr := drop (length s - 3)%nat s.

(** [chr]: code points stop at U+10FFFF. *)
Definition chr (n : N) : result N :=
  if n <? 0x110000 then Ok n else Raise ValueError.

(** ** The builtin [int] on a string (base 10)

    CPython first maps the string to ASCII (white space to a blank, any
    decimal digit to its ASCII digit, and it stops at the first other
    character above DEL, which it writes as a question mark), then reads
    blanks, a sign, digits with single underscores between them, blanks. *)

Definition Py_ISSPACE (c : N) : bool :=
  ((9 <=? c) && (c <=? 13)) || (c =? 32).

(** White space above DEL. *)
Definition Py_UNICODE_ISSPACE (c : N) : bool :=
  bool_decide (c ∈ [0x85; 0xA0; 0x1680; 0x2028; 0x2029; 0x202F; 0x205F; 0x3000])
  || ((0x2000 <=? c) && (c <=? 0x200A)).

(** The code points of the digit zero of every decimal script above DEL
    (Unicode 14, the table of CPython 3.11); each is followed by its digits
    one to nine. *)
Definition decimal_zeros : list N :=
  [ 0x660; 0x6F0; 0x7C0; 0x966; 0x9E6; 0xA66; 0xAE6; 0xB66; 0xBE6; 0xC66;
    0xCE6; 0xD66; 0xDE6; 0xE50; 0xED0; 0xF20; 0x1040; 0x1090; 0x17E0;
    0x1810; 0x1946; 0x19D0; 0x1A80; 0x1A90; 0x1B50; 0x1BB0; 0x1C40; 0x1C50;
    0xA620; 0xA8D0; 0xA900; 0xA9D0; 0xA9F0; 0xAA50; 0xABF0; 0xFF10; 0x104A0;
    0x10D30; 0x11066; 0x110F0; 0x11136; 0x111D0; 0x112F0; 0x11450; 0x114D0;
    0x11650; 0x116C0; 0x11730; 0x118E0; 0x11950; 0x11C50; 0x11D50; 0x11DA0;
    0x16A60; 0x16AC0; 0x16B50; 0x1D7CE; 0x1D7D8; 0x1D7E2; 0x1D7EC; 0x1D7F6;
    0x1E140; 0x1E2F0; 0x1E950; 0x1FBF0 ].

Definition Py_UNICODE_TODECIMAL (c : N) : option N :=
  if (48 <=? c) && (c <=? 57) then Some (c - 48)
  else (fun z => c - z) <$>
       List.find (fun z => (z <=? c) && (c <? z + 10)) decimal_zeros.

Fixpoint transform_decimal_and_space_to_ascii (s : pystr) : pystr :=
  match s with
  | [] => []
  | ch :: s' =>
      if ch <? 127 then ch :: transform_decimal_and_space_to_ascii s'
      else if Py_UNICODE_ISSPACE ch then
        32 :: transform_decimal_and_space_to_ascii s'
      else match Py_UNICODE_TODECIMAL ch with
           | Some d => (48 + d) :: transform_decimal_and_space_to_ascii s'
           | None => [63]
           end
  end.

Fixpoint skip_space (s : pystr) : pystr :=
  match s with
  | c :: s' => if Py_ISSPACE c then skip_space s' else s
  | [] => []
  end.

Definition is_ascii_digit (c : N) : bool := (48 <=? c) && (c <=? 57).

(** The digit loop: [prev] is the character read before, [digits] counts the
    digits read, [acc] is their value.  Two underscores in a row and an
    underscore at the end are refused. *)
Fixpoint scan_digits (prev : N) (digits : nat) (acc : Z) (s : pystr)
  : option (nat * Z * pystr) :=
  match s with
  | c :: s' =>
      if is_ascii_digit c then
        scan_digits c (S digits) (acc * 10 + Z.of_N (c - 48))%Z s'
      else if c =? 95 then
        if prev =? 95 then None else scan_digits c digits acc s'
      else if prev =? 95 then None else Some (digits, acc, s)
  | [] => if prev =? 95 then None else Some (digits, acc, [])
  end.

(** An optional sign. *)
Definition read_sign (s : pystr) : Z * pystr :=
  match s with
  | c :: s' =>
      if c =? 43 then (1%Z, s')
      else if c =? 45 then ((-1)%Z, s')
      else (1%Z, s)
  | [] => (1%Z, [])
  end.

Definition starts_with_underscore (s : pystr) : bool :=
  match s with
  | c :: _ => c =? 95
  | [] => false
  end.

Definition long_from_string (s : pystr) : result Z :=
  let '(sign, s) := read_sign (skip_space s) in
  if starts_with_underscore s then Raise ValueError
  else
    match scan_digits 0 0%nat 0%Z s with
    | None => Raise ValueError
    | Some (O, _, _) => Raise ValueError
    | Some (_, z, rest) =>
        match skip_space rest with
        | [] => Ok (sign * z)%Z
        | _ :: _ => Raise ValueError
        end
    end.

(** The characters that [int] can read at all: a decimal digit, white
    space, a sign or an underscore. *)
Definition ascii_readable (c : N) : bool :=
  is_ascii_digit c || Py_ISSPACE c || (c =? 43) || (c =? 45) || (c =? 95).

Definition int_readable (c : N) : bool :=
  if c <? 127 then ascii_readable c
  else Py_UNICODE_ISSPACE c || bool_decide (is_Some (Py_UNICODE_TODECIMAL c)).

Definition py_int (s : pystr) : result Z :=
  long_from_string (transform_decimal_and_space_to_ascii s).

(** ** The format [{number:03d}]

    The decimal digits of the absolute value, filled with zeros after the
    sign up to a width of three. *)

Fixpoint uint_digits (u : Decimal.uint) : pystr :=
  match u with
  | Nil => []
  | D0 u => 48 :: uint_digits u
  | D1 u => 49 :: uint_digits u
  | D2 u => 50 :: uint_digits u
  | D3 u => 51 :: uint_digits u
  | D4 u => 52 :: uint_digits u
  | D5 u => 53 :: uint_digits u
  | D6 u => 54 :: uint_digits u
  | D7 u => 55 :: uint_digits u
  | D8 u => 56 :: uint_digits u
  | D9 u => 57 :: uint_digits u
  end.

Definition format_03d (n : Z) : pystr :=
  let sign := if (n <? 0)%Z then [45] else [] in
  let ds := uint_digits (N.to_uint (Z.abs_N n)) in
  sign ++ replicate (3 - length sign - length ds)%nat 48 ++ ds.

(** ** [next_id] *)

(** The [while i >= 0] loop of [next_id] over [prefix_list], with its [else]
    clause.  The argument [k] is [i + 1]: the loop test [i >= 0] fails
    exactly when [k] is zero, and then the [else] clause inserts an ['A'] in
    front.  A letter other than ['Z'] is replaced by its successor and the
    loop is left through [break], which skips the [else] clause. *)
Fixpoint increment_loop (k : nat) (prefix_list : list N) : result (list N) :=
  match k with
  | O => Ok (65 :: prefix_list)
  | S i =>
      match prefix_list !! i with
      | None => Raise IndexError
      | Some c =>
          if c =? 90 then increment_loop i (<[i := 65]> prefix_list)
          else c' ← chr (c + 1); Ok (<[i := c']> prefix_list)
      end
  end.

Definition next_id (last : option pystr) : result pystr :=
  match last with
  | None | Some [] => Ok (ustr "A001")
  | Some last =>
      let prefix := slice_upto_minus3 last in
      number ← py_int (slice_from_minus3 last);
      let number := (number + 1)%Z in
      if (number >? 999)%Z then
        let number := 1%Z in
        prefix ←
          match prefix with
          | [] => Ok (ustr "A")
          | _ :: _ => increment_loop (length prefix) prefix
          end;
        Ok (prefix ++ format_03d number)
      else Ok (prefix ++ format_03d number)
  end.


(** ** The spreadsheet

    The script only ever asks odfpy for the elements of one type below a
    node, in document order, so a node is modelled by the list those queries
    return: a document by its tables, a table by its rows, a row by its
    cells, a cell by its paragraphs.  A paragraph is the list of its child
    nodes; only a text node has a [data] attribute. *)

Inductive node : Type :=
| Text (data : pystr)
| Element.

Abbreviation paragraph := (list node).
Abbreviation cell := (list paragraph).
Abbreviation row := (list cell).
Abbreviation table := (list row).
Abbreviation document := (list table).

(** [P(text=s)]: odfpy adds a text node unless the text is empty. *)
Definition P (text : pystr) : paragraph :=
  match text with
  | [] => []
  | _ :: _ => [Text text]
  end.

(** [cell = TableCell(); cell.addElement(P(text=s))]. *)
Definition text_cell (s : pystr) : cell := [P s].

(** [xs[0]] and [xs[-1]]. *)
Definition index_first {A} (xs : list A) : result A :=
  match xs with
  | x :: _ => Ok x
  | [] => Raise IndexError
  end.

Definition index_last {A} (xs : list A) : result A :=
  match last xs with
  | Some x => Ok x
  | None => Raise IndexError
  end.

(** [p.firstChild.data]: [firstChild] is [None] for a paragraph without
    children, and an element node has no [data]. *)
Definition firstChild_data (p : paragraph) : result pystr :=
  match p with
  | Text data :: _ => Ok data
  | Element :: _ => Raise AttributeError
  | [] => Raise AttributeError
  end.

(** The body of the [try] block of the start-up code. *)
Definition read_last_id (t : table) : result pystr :=
  last_row ← index_last t;
  last_id_cell ← index_first last_row;
  p ← index_first last_id_cell;
  firstChild_data p.

(** The [try] block with its [except Exception] clause. *)
Definition try_read_last_id (t : table) : option pystr :=
  match read_last_id t with
  | Ok last_id => Some last_id
  | Raise _ => None
  end.

Definition header : row :=
  text_cell <$> [ustr "ID"; ustr "Subreddit"; ustr "Title"; ustr "URL"].

(** ** The file and the events

    [ODS_FILE] holds a document, which [load] returns, or something else,
    on which [load] raises (what a save leaves that raised after it had
    opened the file is of this kind: not a zip archive). *)

Inductive file_content : Type :=
| Ods (d : document)
| Broken (e : exn).

(** [doc.save] returns, or it raises: before it has opened the file, which
    is then as it was, or after, and the file is then emptied or cut
    short. *)
Inductive save_fate : Type :=
| SaveReturns
| SaveRaises (e : exn) (opened : bool).

Record post : Type := mkPost {
  id : pystr;
  subreddit_display_name : pystr;
  title : pystr
}.

(** What the stream does at one turn of the loop: it delivers a post, and
    then [sv] and [pr] are the fates of the save and of the [print] of the
    turn, should the turn reach them ([pr] is the exception that [print]
    raises, if it raises); or it raises. *)
Inductive event : Type :=
| Deliver (p : post) (sv : save_fate) (pr : option exn)
| StreamRaises (e : exn).

(** ** The process

    [table_] is the first table of [doc] and [other_tables] are the tables
    after it, so that adding a row to [table_] changes [doc], as it does in
    the script.  [ods_file] is what [ODS_FILE] holds on disk ([None] when the
    file does not exist).  [console] is the list of the texts printed. *)

Record state : Type := mkState {
  table_ : table;
  other_tables : list table;
  last_id : pystr;
  seen_posts : gset pystr;
  ods_file : option file_content;
  console : list pystr
}.

Definition doc (st : state) : document := table_ st :: other_tables st.

(** The code between the configuration block and the first [print]: open
    or create the document, recover the last identifier, and turn it into
    the identifier of the next row.  [load] is outside the [try] block. *)
Definition startup (file : option file_content) : result state :=
  '(t, ts, last) ←
    match file with
    | Some (Broken e) => Raise e
    | Some (Ods d) =>
        match d with
        | t :: ts => Ok (t, ts, try_read_last_id t)
        | [] => Raise IndexError
        end
    | None => Ok ([header], [], None)
    end;
  last ← next_id last;
  Ok {| table_ := t; other_tables := ts; last_id := last;
        seen_posts := ∅; ods_file := file; console := [] |}.

(** [print(text)] with its fate. *)
Definition print (pr : option exn) (text : pystr) (out : list pystr)
  : result (list pystr) :=
  match pr with
  | None => Ok (out ++ [text])
  | Some e => Raise e
  end.

(** The two [print] calls before the loop. *)
Definition banner (pr1 pr2 : option exn) (st : state) : result state :=
  out ← print pr1
          (ustr "Starting Reddit console scraper. Last ID = " ++ last_id st)
          (console st);
  out ← print pr2 (ustr "Press CTRL+C to stop." ++ [10]) out;
  Ok (mkState (table_ st) (other_tables st) (last_id st) (seen_posts st)
        (ods_file st) out).

Definition url_of (p : post) : pystr := ustr "https://redd.it/" ++ id p.

Definition new_row (last : pystr) (p : post) : row :=
  [ text_cell last;
    text_cell (subreddit_display_name p);
    text_cell (title p);
    text_cell (url_of p) ].

Definition console_line (last : pystr) (p : post) : pystr :=
  ustr "[" ++ last ++ ustr "] " ++ subreddit_display_name p ++ ustr ": "
  ++ title p ++ ustr " (" ++ url_of p ++ ustr ")".

(** One turn of the [for] loop on a delivered post.  The result is the
    state when the turn ends and the exception that ended it, if any.  A
    save that returns leaves on disk the document that [load] will return
    for it, [reload] of the document in memory; a save that raises leaves
    the file as it was if it had not opened it, and broken if it had.  A
    [print] that raises prints nothing. *)
Definition loop_body (reload : document → document)
    (p : post) (sv : save_fate) (pr : option exn) (st : state)
  : state * option exn :=
  if bool_decide (id p ∈ seen_posts st) then (st, None)
  else
    let seen := {[ id p ]} ∪ seen_posts st in
    let t := table_ st ++ [new_row (last_id st) p] in
    match sv with
    | SaveRaises e opened =>
        let file := if opened then Some (Broken BadZipFile)
                    else ods_file st in
        (mkState t (other_tables st) (last_id st) seen file (console st),
         Some e)
    | SaveReturns =>
        let file := Some (Ods (reload (t :: other_tables st))) in
        match print pr (console_line (last_id st) p) (console st) with
        | Raise e =>
            (mkState t (other_tables st) (last_id st) seen file
               (console st), Some e)
        | Ok out =>
            match next_id (Some (last_id st)) with
            | Ok last =>
                (mkState t (other_tables st) last seen file out, None)
            | Raise e =>
                (mkState t (other_tables st) (last_id st) seen file out,
                 Some e)
            end
        end
    end.

(** The loop over the events.  Nothing inside the loop catches an
    exception, so the first one ends it.  The end of the list is the point
    up to which the run is followed. *)
Fixpoint main_loop (reload : document → document)
    (stream : list event) (st : state) : state * option exn :=
  match stream with
  | [] => (st, None)
  | StreamRaises e :: _ => (st, Some e)
  | Deliver p sv pr :: stream' =>
      match loop_body reload p sv pr st with
      | (st', None) => main_loop reload stream' st'
      | (st', Some e) => (st', Some e)
      end
  end.

(** The posts that a list of events delivers. *)
Definition delivered (stream : list event) : list post :=
  omap (λ ev, match ev with
              | Deliver p _ _ => Some p
              | StreamRaises _ => None
              end) stream.

(** The [except KeyboardInterrupt] clause around the loop: it prints and
    the script ends; any other exception is not caught. *)
Definition except_KeyboardInterrupt (pr : option exn)
    (r : state * option exn) : state * option exn :=
  match r with
  | (st, Some KeyboardInterrupt) =>
      match print pr ([10] ++ ustr "Scraper stopped by user.") (console st)
      with
      | Ok out =>
          (mkState (table_ st) (other_tables st) (last_id st)
             (seen_posts st) (ods_file st) out, None)
      | Raise e => (st, Some e)
      end
  | _ => r
  end.

(** ** The specification's vocabulary *)

Definition is_upper (c : N) : bool := (65 <=? c) && (c <=? 90).

Definition label_prefix (s : pystr) : pystr := take (length s - 3)%nat s.
Definition label_digits (s : pystr) : pystr := drop (length s - 3)%nat s.

(** The value of a run of ASCII digits. *)
Definition digits_value (ds : pystr) : Z :=
  foldl (fun acc d => (acc * 10 + (Z.of_N d - 48))%Z) 0%Z ds.

Definition label_number (s : pystr) : Z := digits_value (label_digits s).

(** A label: capital letters, then exactly three digits that read as a
    number from 1 to 999. *)
Definition well_formed (s : pystr) : bool :=
  forallb is_upper (label_prefix s)
  && (length (label_digits s) =? 3)%nat
  && forallb is_ascii_digit (label_digits s)
  && (1 <=? label_number s)%Z.

(** A number from 0 to 999 on three digits. *)
Definition three_digits (n : Z) : pystr :=
  [ Z.to_N (48 + n / 100); Z.to_N (48 + n / 10 mod 10); Z.to_N (48 + n mod 10) ]%Z.

(** The prefix as a counter in base 26, written from its last letter: a
    ['Z'] becomes ['A'] and the carry moves on, any other letter becomes the
    next one, and a carry that leaves the prefix adds an ['A']. *)
Fixpoint carry (rev_prefix : list N) : list N :=
  match rev_prefix with
  | [] => [65]
  | c :: rest => if c =? 90 then 65 :: carry rest else (c + 1) :: rest
  end.

Definition prefix_succ (prefix : pystr) : pystr :=
  reverse (carry (reverse prefix)).

(** The prefix read as a number whose digits are the letters, A = 1 to
    Z = 26. *)
Definition prefix_value (prefix : pystr) : Z :=
  foldl (fun acc c => (acc * 26 + (Z.of_N c - 64))%Z) 0%Z prefix.

(** The order on labels: prefixes by length, then letter by letter, then
    the numbers. *)
Fixpoint lex_ltb (a b : pystr) : bool :=
  match a, b with
  | x :: a', y :: b' => (x <? y) || ((x =? y) && lex_ltb a' b')
  | [], _ :: _ => true
  | _, [] => false
  end.

Definition prefix_ltb (p q : pystr) : bool :=
  (length p <? length q)%nat
  || ((length p =? length q)%nat && lex_ltb p q).

Definition label_ltb (a b : pystr) : bool :=
  prefix_ltb (label_prefix a) (label_prefix b)
  || (bool_decide (label_prefix a = label_prefix b)
      && (label_number a <? label_number b)%Z).

(** The labels handed out one after the other, from no label at all. *)
Fixpoint nth_label (n : nat) : result pystr :=
  match n with
  | O => next_id None
  | S n' => last ← nth_label n'; next_id (Some last)
  end.

(** The facts about one three-digit number that the proofs below use, as
    one test that can be run over the whole range. *)
Definition number_facts (n : Z) : bool :=
  bool_decide (py_int (three_digits n) = Ok n)
  && bool_decide (format_03d n = three_digits n)
  && bool_decide (digits_value (three_digits n) = n)
  && forallb is_ascii_digit (three_digits n).

Definition ascii_digits : list N := N.of_nat <$> seq 48 10.

Definition digits_facts (d : pystr) : bool :=
  bool_decide (three_digits (digits_value d) = d)
  && (0 <=? digits_value d)%Z && (digits_value d <? 1000)%Z.

(** The facts about the rendering of one number from -98 to 999: it takes
    three characters and [int] reads the number back. *)
Definition signed_number_facts (n : Z) : bool :=
  (length (format_03d n) =? 3)%nat
  && bool_decide (py_int (format_03d n) = Ok n).

(** The label number [n] of the sequence, as a string. *)
Definition label_at (n : nat) : pystr :=
  match nth_label n with
  | Ok s => s
  | Raise _ => []
  end.

(** What the start-up code would load: the document of the file, or the
    new document with its header when there is no file. *)

(** ** What [int] accepts

    The texts that [int] reads, once white space and digits are in ASCII:
    blanks, a sign or none, a numeral, blanks.  A numeral is made of digits
    and underscores, begins and ends with a digit and has no two
    underscores in a row. *)

Fixpoint single_underscores (s : pystr) : bool :=
  match s with
  | c :: s' =>
      match s' with
      | d :: _ => negb ((c =? 95) && (d =? 95))
      | [] => true
      end && single_underscores s'
  | [] => true
  end.

Definition is_numeral (u : pystr) : bool :=
  forallb (λ c, is_ascii_digit c || (c =? 95)) u
  && match u with
     | c :: _ => is_ascii_digit c
     | [] => false
     end
  && match last u with
     | Some c => is_ascii_digit c
     | None => false
     end
  && single_underscores u.

Definition int_literal (t : pystr) : Prop :=
  ∃ ws1 sg u ws2 : pystr,
    t = ws1 ++ sg ++ u ++ ws2
    ∧ forallb Py_ISSPACE ws1 = true
    ∧ (sg = [] ∨ sg = [43] ∨ sg = [45])
    ∧ is_numeral u = true
    ∧ forallb Py_ISSPACE ws2 = true.

Definition int_accepts (s : pystr) : Prop :=
  int_literal (transform_decimal_and_space_to_ascii s).

(** The roll-over of a prefix runs past the last code point when the
    character before its trailing capital Z's has no successor. *)
Fixpoint after_Zs (rev_prefix : list N) : option N :=
  match rev_prefix with
  | c :: rest => if c =? 90 then after_Zs rest else Some c
  | [] => None
  end.

Definition rollover_overflows (prefix : pystr) : bool :=
  match after_Zs (reverse prefix) with
  | Some c => 0x10FFFF <=? c
  | None => false
  end.

(** ** What comes back from a saved file

    The theorems about a second start assume of [reload] only this: a
    well-formed label written in the first cell of the last row of the
    first table is read back as it is. *)
Definition keeps_labels (reload : document → document) : Prop :=
  ∀ (t : table) (ts : list table) (l : pystr) (p : post),
    well_formed l = true →
    ∃ (t' : table) (ts' : list table),
      reload ((t ++ [new_row l p]) :: ts) = t' :: ts'
      ∧ read_last_id t' = Ok l.

(** One such [reload], with which the examples are run: every character
    that XML 1.0 forbids or discourages comes back as U+FFFD (the writer of
    odfpy stores such a character in this way), and the rest of the
    document comes back as it is. *)
Definition xml_filtered (c : N) : bool :=
  (c =? 0) || ((0xD800 <=? c) && (c <=? 0xDFFF))
  || ((0xFFFE <=? c) && (c <=? 0xFFFF))
  || ((0x01 <=? c) && (c <=? 0x08)) || ((0x0B <=? c) && (c <=? 0x0C))
  || ((0x0E <=? c) && (c <=? 0x1F))
  || ((0x7F <=? c) && (c <=? 0x84)) || ((0x86 <=? c) && (c <=? 0x9F))
  || ((0x10000 <=? c) && (0xFFFE <=? N.land c 0xFFFF)).

Definition rewritten_node (n : node) : node :=
  match n with
  | Text data => Text ((λ c, if xml_filtered c then 0xFFFD else c) <$> data)
  | Element => Element
  end.

Definition rewriting_reload (d : document) : document :=
  fmap (M := list) (fmap (M := list) (fmap (M := list)
    (fmap (M := list) (fmap (M := list) rewritten_node)))) d.

(** The run of the specification's scenarios: no file at the start, then
    the posts k1, k2 and k3 of the communities a, b and c. *)
Definition post_k1 : post := mkPost (ustr "k1") (ustr "a") (ustr "T1").
Definition post_k2 : post := mkPost (ustr "k2") (ustr "b") (ustr "T2").
Definition post_k3 : post := mkPost (ustr "k3") (ustr "c") (ustr "T3").

Definition fresh_state : state :=
  mkState [header] [] (ustr "A001") ∅ None
    [ ustr "Starting Reddit console scraper. Last ID = A001";
      ustr "Press CTRL+C to stop." ++ [10] ].

Definition state_after_k1 : state :=
  (main_loop rewriting_reload [Deliver post_k1 SaveReturns None]
     fresh_state).1.

(** A state from which the process can be started again without a change
    of the identifier it is about to use: the start-up code, run on the file
    as it is on disk, ends with the same [last_id]. *)
Definition resumable (st : state) : Prop :=
  last_id <$> startup (ods_file st) = Ok (last_id st) ∧ last_id st ≠ [].

(** * Proofs *)

(** ** Checking a property over a finite range *)

Lemma Z_range_check (P : Z → bool) (k : nat) :
  forallb P (Z.of_nat <$> seq 0 k) = true →
  ∀ n, (0 ≤ n < Z.of_nat k)%Z → P n = true.
Proof.
  intros Hall n Hn.
  rewrite forallb_forall in Hall. apply Hall.
  replace n with (Z.of_nat (Z.to_nat n)) by lia.
  apply in_map, in_seq. lia.
Qed.

Lemma number_facts_all n : (0 ≤ n < 1000)%Z → number_facts n = true.
Proof.
  apply (Z_range_check number_facts 1000). vm_compute. reflexivity.
Qed.

Lemma is_ascii_digit_In c : is_ascii_digit c = true → In c ascii_digits.
Proof.
  unfold is_ascii_digit. intros H.
  apply andb_prop in H as [H1 H2].
  apply N.leb_le in H1. apply N.leb_le in H2.
  replace c with (N.of_nat (N.to_nat c)) by lia.
  apply in_map, in_seq. lia.
Qed.

Lemma digits_facts_all d :
  length d = 3%nat → forallb is_ascii_digit d = true → digits_facts d = true.
Proof.
  intros Hlen Hd.
  destruct d as [|a [|b [|c [|? ?]]]]; try discriminate. clear Hlen.
  simpl in Hd. rewrite andb_true_r in Hd.
  apply andb_prop in Hd as [Ha Hd]. apply andb_prop in Hd as [Hb Hc].
  apply is_ascii_digit_In in Ha, Hb, Hc.
  assert (Hall : forallb (fun a => forallb (fun b => forallb (fun c =>
            digits_facts [a; b; c]) ascii_digits) ascii_digits) ascii_digits
          = true) by (vm_compute; reflexivity).
  rewrite forallb_forall in Hall. specialize (Hall a Ha).
  rewrite forallb_forall in Hall. specialize (Hall b Hb).
  rewrite forallb_forall in Hall. exact (Hall c Hc).
Qed.

(** ** Labels as a prefix and a number *)

Lemma three_digits_length n : length (three_digits n) = 3%nat.
Proof. reflexivity. Qed.

Lemma label_prefix_app p n : label_prefix (p ++ three_digits n) = p.
Proof.
  unfold label_prefix. rewrite length_app, three_digits_length.
  replace (length p + 3 - 3)%nat with (length p) by lia.
  apply take_app_length.
Qed.

Lemma label_digits_app p n :
  label_digits (p ++ three_digits n) = three_digits n.
Proof.
  unfold label_digits. rewrite length_app, three_digits_length.
  replace (length p + 3 - 3)%nat with (length p) by lia.
  apply drop_app_length.
Qed.

Lemma label_number_app p n :
  (0 ≤ n < 1000)%Z → label_number (p ++ three_digits n) = n.
Proof.
  intros Hn. unfold label_number. rewrite label_digits_app.
  pose proof (number_facts_all n Hn) as H. unfold number_facts in H.
  repeat (apply andb_prop in H as [H ?]).
  match goal with H : bool_decide (digits_value _ = _) = true |- _ =>
    exact (bool_decide_eq_true_1 _ H) end.
Qed.

Lemma well_formed_inv s :
  well_formed s = true →
  s = label_prefix s ++ three_digits (label_number s)
  ∧ forallb is_upper (label_prefix s) = true
  ∧ (1 ≤ label_number s ≤ 999)%Z.
Proof.
  unfold well_formed. intros H.
  repeat (apply andb_prop in H as [H ?]).
  match goal with H : (_ =? 3)%nat = true |- _ => apply Nat.eqb_eq in H end.
  match goal with
  | Hl : length _ = 3%nat, Hd : forallb is_ascii_digit _ = true |- _ =>
      pose proof (digits_facts_all _ Hl Hd) as Hf
  end.
  unfold digits_facts in Hf.
  apply andb_prop in Hf as [Hf Hhi]. apply andb_prop in Hf as [Hf Hlo].
  apply bool_decide_eq_true_1 in Hf.
  split_and!.
  - unfold label_number. rewrite Hf. unfold label_prefix, label_digits.
    symmetry. apply take_drop.
  - assumption.
  - lia.
  - unfold label_number in *. lia.
Qed.

Lemma well_formed_intro p n :
  forallb is_upper p = true → (1 ≤ n ≤ 999)%Z →
  well_formed (p ++ three_digits n) = true.
Proof.
  intros Hp Hn. unfold well_formed.
  rewrite label_prefix_app, label_number_app, label_digits_app by lia.
  pose proof (number_facts_all n ltac:(lia)) as H. unfold number_facts in H.
  repeat (apply andb_prop in H as [H ?]).
  match goal with H : forallb is_ascii_digit _ = true |- _ => rewrite H end.
  rewrite Hp. simpl. apply Z.leb_le. lia.
Qed.

(** ** [next_id] on a prefix followed by three digits *)

Lemma slice_upto_minus3_app p n : slice_upto_minus3 (p ++ three_digits n) = p.
Proof. apply label_prefix_app. Qed.

Lemma slice_from_minus3_app p n :
  slice_from_minus3 (p ++ three_digits n) = three_digits n.
Proof. apply label_digits_app. Qed.

Lemma py_int_three_digits n :
  (0 ≤ n < 1000)%Z → py_int (three_digits n) = Ok n.
Proof.
  intros Hn.
  pose proof (number_facts_all n Hn) as H. unfold number_facts in H.
  repeat (apply andb_prop in H as [H ?]).
  exact (bool_decide_eq_true_1 _ H).
Qed.

Lemma format_03d_three_digits n :
  (0 ≤ n < 1000)%Z → format_03d n = three_digits n.
Proof.
  intros Hn.
  pose proof (number_facts_all n Hn) as H. unfold number_facts in H.
  repeat (apply andb_prop in H as [H ?]).
  match goal with H : bool_decide (format_03d _ = _) = true |- _ =>
    exact (bool_decide_eq_true_1 _ H) end.
Qed.

Lemma next_id_below_999 p n :
  (0 ≤ n < 999)%Z →
  next_id (Some (p ++ three_digits n)) = Ok (p ++ three_digits (n + 1)).
Proof.
  intros Hn. unfold next_id.
  destruct (p ++ three_digits n) as [|c s] eqn:Hs.
  { apply (f_equal length) in Hs.
    rewrite length_app, three_digits_length in Hs. simpl in Hs. lia. }
  rewrite <- Hs, slice_upto_minus3_app, slice_from_minus3_app.
  rewrite py_int_three_digits by lia. simpl.
  destruct (n + 1 >? 999)%Z eqn:Hgt; [lia|].
  by rewrite format_03d_three_digits by lia.
Qed.

Lemma next_id_at_999 p :
  next_id (Some (p ++ three_digits 999)) =
    prefix ← match p with
             | [] => Ok (ustr "A")
             | _ :: _ => increment_loop (length p) p
             end;
    Ok (prefix ++ ustr "001").
Proof.
  unfold next_id.
  destruct (p ++ three_digits 999) as [|c s] eqn:Hs.
  { apply (f_equal length) in Hs.
    rewrite length_app, three_digits_length in Hs. simpl in Hs. lia. }
  rewrite <- Hs, slice_upto_minus3_app, slice_from_minus3_app.
  reflexivity.
Qed.

(** ** The loop computes the successor of the prefix *)

Lemma is_upper_bounds c : is_upper c = true ↔ 65 ≤ c ≤ 90.
Proof.
  unfold is_upper. rewrite andb_true_iff, !N.leb_le. reflexivity.
Qed.

Lemma prefix_succ_snoc_Z p : prefix_succ (p ++ [90]) = prefix_succ p ++ [65].
Proof.
  unfold prefix_succ. rewrite reverse_app. simpl.
  by rewrite reverse_cons.
Qed.

Lemma prefix_succ_snoc_other p c :
  c ≠ 90 → prefix_succ (p ++ [c]) = p ++ [c + 1].
Proof.
  intros Hc. unfold prefix_succ. rewrite reverse_app. simpl.
  destruct (c =? 90) eqn:E; [apply N.eqb_eq in E; done|].
  by rewrite reverse_cons, reverse_involutive.
Qed.

Lemma insert_middle (a b : list N) c x :
  <[length a := x]> (a ++ c :: b) = a ++ x :: b.
Proof.
  rewrite insert_app_r_alt by lia. by rewrite Nat.sub_diag.
Qed.

Lemma increment_loop_spec a b :
  Forall (λ c, c < 0x10FFFF) a →
  increment_loop (length a) (a ++ b) = Ok (prefix_succ a ++ b).
Proof.
  revert b. induction a as [|c a IH] using rev_ind; intros b Ha.
  - reflexivity.
  - apply Forall_app in Ha as [Ha Hc]. rewrite Forall_singleton in Hc.
    rewrite length_app. simpl.
    replace (length a + 1)%nat with (S (length a)) by lia. simpl.
    rewrite <- app_assoc. simpl.
    rewrite list_lookup_middle by reflexivity.
    destruct (c =? 90) eqn:E.
    + apply N.eqb_eq in E. subst c.
      rewrite insert_middle.
      rewrite (IH (65 :: b) Ha), prefix_succ_snoc_Z, <- app_assoc.
      reflexivity.
    + apply N.eqb_neq in E.
      unfold chr. destruct (c + 1 <? 0x110000) eqn:Hlt.
      * simpl. rewrite insert_middle.
        rewrite prefix_succ_snoc_other, <- app_assoc by done.
        reflexivity.
      * apply N.ltb_ge in Hlt. lia.
Qed.

Lemma upper_below_max p :
  forallb is_upper p = true → Forall (λ c, c < 0x10FFFF) p.
Proof.
  intros H. apply Forall_forall. intros c Hc.
  rewrite forallb_forall in H.
  apply list_elem_of_In, H, is_upper_bounds in Hc. lia.
Qed.

Lemma next_id_999_spec p :
  Forall (λ c, c < 0x10FFFF) p →
  next_id (Some (p ++ three_digits 999)) = Ok (prefix_succ p ++ ustr "001").
Proof.
  intros Hp. rewrite next_id_at_999.
  destruct p as [|c p'] eqn:E; [reflexivity|].
  rewrite <- E in *.
  pose proof (increment_loop_spec p [] Hp) as H.
  rewrite !app_nil_r in H. rewrite H. reflexivity.
Qed.

(** ** The successor of a prefix *)

Lemma prefix_succ_upper p :
  forallb is_upper p = true → forallb is_upper (prefix_succ p) = true.
Proof.
  induction p as [|c p IH] using rev_ind; intros Hp; [reflexivity|].
  rewrite forallb_app in Hp. apply andb_prop in Hp as [Hp Hc].
  simpl in Hc. rewrite andb_true_r in Hc.
  destruct (N.eq_dec c 90) as [->|Hne].
  - rewrite prefix_succ_snoc_Z, forallb_app, (IH Hp). reflexivity.
  - rewrite prefix_succ_snoc_other, forallb_app, Hp by done. simpl.
    rewrite andb_true_r. apply is_upper_bounds.
    apply is_upper_bounds in Hc. lia.
Qed.

Lemma lex_ltb_app_same u a b : lex_ltb (u ++ a) (u ++ b) = lex_ltb a b.
Proof.
  induction u as [|x u IH]; [reflexivity|]. simpl.
  by rewrite N.ltb_irrefl, N.eqb_refl, IH.
Qed.

Lemma lex_ltb_app_lt u v a b :
  length u = length v → lex_ltb u v = true → lex_ltb (u ++ a) (v ++ b) = true.
Proof.
  revert v. induction u as [|x u IH]; intros [|y v] Hlen H;
    try discriminate.
  simpl in *. apply orb_prop in H as [H|H].
  - by rewrite H.
  - apply andb_prop in H as [Hxy H].
    rewrite Hxy, (IH v) by (assumption || lia).
    apply orb_true_r.
Qed.

Lemma prefix_succ_cases p :
  length (prefix_succ p) = S (length p)
  ∨ (length (prefix_succ p) = length p ∧ lex_ltb p (prefix_succ p) = true).
Proof.
  induction p as [|c p IH] using rev_ind; [by left|].
  destruct (N.eq_dec c 90) as [->|Hne].
  - rewrite prefix_succ_snoc_Z, !length_app. simpl.
    destruct IH as [IH|[IH1 IH2]]; [left; lia|right].
    split; [lia|]. by apply lex_ltb_app_lt.
  - rewrite prefix_succ_snoc_other, !length_app by done. right.
    split; [reflexivity|].
    rewrite lex_ltb_app_same. simpl.
    replace (c <? c + 1) with true; [reflexivity|].
    symmetry. apply N.ltb_lt. lia.
Qed.

Lemma prefix_succ_ltb p : prefix_ltb p (prefix_succ p) = true.
Proof.
  unfold prefix_ltb.
  destruct (prefix_succ_cases p) as [H|[H1 H2]].
  - rewrite H. replace (length p <? S (length p))%nat with true;
      [reflexivity|].
    symmetry. apply Nat.ltb_lt. lia.
  - rewrite H1, H2, Nat.eqb_refl. apply orb_true_r.
Qed.

Lemma prefix_value_snoc p c :
  prefix_value (p ++ [c]) = (prefix_value p * 26 + (Z.of_N c - 64))%Z.
Proof. unfold prefix_value. by rewrite foldl_app. Qed.

Lemma prefix_value_succ p :
  forallb is_upper p = true →
  prefix_value (prefix_succ p) = (prefix_value p + 1)%Z.
Proof.
  induction p as [|c p IH] using rev_ind; intros Hp; [reflexivity|].
  rewrite forallb_app in Hp. apply andb_prop in Hp as [Hp Hc].
  destruct (N.eq_dec c 90) as [->|Hne].
  - rewrite prefix_succ_snoc_Z, !prefix_value_snoc, (IH Hp). lia.
  - rewrite prefix_succ_snoc_other, !prefix_value_snoc by done. lia.
Qed.

(** ** The order on labels is transitive *)

Lemma lex_ltb_trans a b c :
  lex_ltb a b = true → lex_ltb b c = true → lex_ltb a c = true.
Proof.
  revert b c. induction a as [|x a IH]; intros [|y b] [|z c] Hab Hbc;
    try discriminate; try reflexivity.
  simpl in *.
  apply orb_prop in Hab as [Hab|Hab]; apply orb_prop in Hbc as [Hbc|Hbc].
  - apply N.ltb_lt in Hab, Hbc.
    replace (x <? z) with true; [reflexivity|].
    symmetry. apply N.ltb_lt. lia.
  - apply andb_prop in Hbc as [Hyz _]. apply N.eqb_eq in Hyz. subst z.
    by rewrite Hab.
  - apply andb_prop in Hab as [Hxy _]. apply N.eqb_eq in Hxy. subst y.
    by rewrite Hbc.
  - apply andb_prop in Hab as [Hxy Hab]. apply andb_prop in Hbc as [Hyz Hbc].
    rewrite (IH b c Hab Hbc).
    apply N.eqb_eq in Hxy, Hyz. subst. rewrite N.eqb_refl.
    apply orb_true_r.
Qed.

Lemma prefix_ltb_trans p q r :
  prefix_ltb p q = true → prefix_ltb q r = true → prefix_ltb p r = true.
Proof.
  unfold prefix_ltb. intros Hpq Hqr.
  apply orb_prop in Hpq as [Hpq|Hpq]; apply orb_prop in Hqr as [Hqr|Hqr].
  - apply Nat.ltb_lt in Hpq, Hqr.
    replace (length p <? length r)%nat with true; [reflexivity|].
    symmetry. apply Nat.ltb_lt. lia.
  - apply andb_prop in Hqr as [Hqr _]. apply Nat.eqb_eq in Hqr.
    rewrite <- Hqr, Hpq. reflexivity.
  - apply andb_prop in Hpq as [Hpq _]. apply Nat.eqb_eq in Hpq.
    rewrite Hpq, Hqr. reflexivity.
  - apply andb_prop in Hpq as [Hpq Lpq]. apply andb_prop in Hqr as [Hqr Lqr].
    apply Nat.eqb_eq in Hpq, Hqr.
    rewrite (lex_ltb_trans p q r Lpq Lqr), Hpq, Hqr, Nat.eqb_refl.
    apply orb_true_r.
Qed.

Lemma label_ltb_trans a b c :
  label_ltb a b = true → label_ltb b c = true → label_ltb a c = true.
Proof.
  unfold label_ltb. intros Hab Hbc.
  apply orb_prop in Hab as [Hab|Hab]; apply orb_prop in Hbc as [Hbc|Hbc].
  - by rewrite (prefix_ltb_trans _ _ _ Hab Hbc).
  - apply andb_prop in Hbc as [Hbc _]. apply bool_decide_eq_true_1 in Hbc.
    by rewrite <- Hbc, Hab.
  - apply andb_prop in Hab as [Hab _]. apply bool_decide_eq_true_1 in Hab.
    by rewrite Hab, Hbc.
  - apply andb_prop in Hab as [Pab Nab]. apply andb_prop in Hbc as [Pbc Nbc].
    apply bool_decide_eq_true_1 in Pab, Pbc.
    apply Z.ltb_lt in Nab, Nbc.
    rewrite Pab, Pbc, bool_decide_eq_true_2 by reflexivity.
    replace (label_number a <? label_number c)%Z with true.
    + apply orb_true_r.
    + symmetry. apply Z.ltb_lt. lia.
Qed.

(** ** One step of the sequencer on a label *)

Lemma next_id_label s :
  well_formed s = true →
  ∃ s', next_id (Some s) = Ok s'
        ∧ well_formed s' = true
        ∧ label_ltb s s' = true.
Proof.
  intros Hwf. destruct (well_formed_inv s Hwf) as (Hs & Hp & Hn).
  set (p := label_prefix s) in *. set (n := label_number s) in *.
  destruct (Z.eq_dec n 999%Z) as [E|E].
  - exists (prefix_succ p ++ three_digits 1).
    rewrite Hs, E. split_and!.
    + apply next_id_999_spec, upper_below_max, Hp.
    + apply well_formed_intro; [by apply prefix_succ_upper|lia].
    + unfold label_ltb. rewrite !label_prefix_app.
      by rewrite prefix_succ_ltb.
  - exists (p ++ three_digits (n + 1)).
    rewrite Hs. split_and!.
    + apply next_id_below_999. lia.
    + apply well_formed_intro; [assumption|lia].
    + unfold label_ltb.
      rewrite !label_prefix_app, !label_number_app by lia.
      rewrite bool_decide_eq_true_2 by reflexivity.
      replace (n <? n + 1)%Z with true; [apply orb_true_r|].
      symmetry. apply Z.ltb_lt. lia.
Qed.

Lemma nth_label_well_formed n :
  ∃ s, nth_label n = Ok s ∧ well_formed s = true.
Proof.
  induction n as [|n (s & Hs & Hwf)].
  - by exists (ustr "A001").
  - destruct (next_id_label s Hwf) as (s' & Hs' & Hwf' & _).
    exists s'. simpl. rewrite Hs. by split.
Qed.

Lemma nth_label_lt i j :
  (i < j)%nat →
  ∃ a b, nth_label i = Ok a ∧ nth_label j = Ok b ∧ label_ltb a b = true.
Proof.
  intros Hij. destruct (nth_label_well_formed i) as (a & Ha & Hwa).
  exists a. induction Hij as [|j Hij (b & Hia & Hb & Hab)].
  - destruct (next_id_label a Hwa) as (b & Hb & _ & Hab).
    exists b. simpl. rewrite Ha. by split_and!.
  - destruct (nth_label_well_formed j) as (b' & Hb' & Hwb).
    assert (b' = b) as -> by congruence.
    destruct (next_id_label b Hwb) as (c & Hc & _ & Hbc).
    exists c. simpl. rewrite Hb. split_and!; try done.
    by apply (label_ltb_trans a b c).
Qed.

(** * The sequencer *)

(** C3.  Without a previous label, [next_id] returns the label A001. *)
Theorem next_id_first_label : next_id None = Ok (ustr "A001").
Proof. reflexivity. Qed.

(** C4.  On a well-formed label whose number is below 999, [next_id]
    returns the same prefix followed by the number plus one on three digits;
    the label after A001 is A002. *)
Theorem next_id_same_prefix :
  (∀ s, well_formed s = true → (label_number s < 999)%Z →
     ∃ s', next_id (Some s) = Ok s'
           ∧ s' = label_prefix s ++ three_digits (label_number s + 1)
           ∧ label_prefix s' = label_prefix s
           ∧ label_number s' = (label_number s + 1)%Z
           ∧ length (label_digits s') = 3%nat)
  ∧ next_id (Some (ustr "A001")) = Ok (ustr "A002").
Proof.
  split; [|reflexivity].
  intros s Hwf Hlt. destruct (well_formed_inv s Hwf) as (Hs & _ & Hn).
  eexists. split_and!; [|reflexivity|..].
  - rewrite Hs at 1. apply next_id_below_999. lia.
  - apply label_prefix_app.
  - apply label_number_app. lia.
  - by rewrite label_digits_app.
Qed.

Lemma next_id_same_prefix_witness :
  ∃ s', next_id (Some (ustr "QX041")) = Ok s'
        ∧ s' = label_prefix (ustr "QX041")
               ++ three_digits (label_number (ustr "QX041") + 1)
        ∧ label_prefix s' = label_prefix (ustr "QX041")
        ∧ label_number s' = (label_number (ustr "QX041") + 1)%Z
        ∧ length (label_digits s') = 3%nat.
Proof.
  apply (proj1 next_id_same_prefix (ustr "QX041")); reflexivity.
Defined.

(** C1.  On a well-formed label whose number is 999, [next_id] returns the
    successor of the prefix (the rightmost letter is advanced, a Z becomes
    an A and carries to the left, a carry out of the prefix adds a leading
    A) followed by 001; that successor is the prefix plus one as a number
    in letters.  A999, Z999, AZ999 and ZZ999 are followed by B001, AA001,
    BA001 and AAA001. *)
Theorem next_id_rollover :
  (∀ s, well_formed s = true → label_number s = 999%Z →
     next_id (Some s) = Ok (prefix_succ (label_prefix s) ++ ustr "001")
     ∧ prefix_value (prefix_succ (label_prefix s))
       = (prefix_value (label_prefix s) + 1)%Z)
  ∧ next_id (Some (ustr "A999")) = Ok (ustr "B001")
  ∧ next_id (Some (ustr "Z999")) = Ok (ustr "AA001")
  ∧ next_id (Some (ustr "AZ999")) = Ok (ustr "BA001")
  ∧ next_id (Some (ustr "ZZ999")) = Ok (ustr "AAA001").
Proof.
  split; [|by split_and!].
  intros s Hwf H999. destruct (well_formed_inv s Hwf) as (Hs & Hp & _).
  split; [|by apply prefix_value_succ].
  rewrite Hs at 1. rewrite H999.
  apply next_id_999_spec, upper_below_max, Hp.
Qed.

Lemma next_id_rollover_witness :
  next_id (Some (ustr "BZZ999"))
  = Ok (prefix_succ (label_prefix (ustr "BZZ999")) ++ ustr "001")
  ∧ prefix_value (prefix_succ (label_prefix (ustr "BZZ999")))
    = (prefix_value (label_prefix (ustr "BZZ999")) + 1)%Z.
Proof.
  apply (proj1 next_id_rollover (ustr "BZZ999")); reflexivity.
Defined.

(** C10.  [next_id] maps a well-formed label (capital letters, possibly
    none, then three digits from 001 to 999) to a well-formed label, and
    every label reached from no label at all is well-formed. *)
Theorem next_id_well_formed :
  (∀ s, well_formed s = true →
     ∃ s', next_id (Some s) = Ok s' ∧ well_formed s' = true)
  ∧ (∀ n, ∃ s, nth_label n = Ok s ∧ well_formed s = true).
Proof.
  split.
  - intros s Hwf. destruct (next_id_label s Hwf) as (s' & Hs' & Hwf' & _).
    by exists s'.
  - apply nth_label_well_formed.
Qed.

Lemma next_id_well_formed_witness :
  ∃ s', next_id (Some (ustr "999")) = Ok s' ∧ well_formed s' = true.
Proof.
  apply (proj1 next_id_well_formed (ustr "999")). reflexivity.
Defined.

(** C2.  Among the labels obtained by iterating [next_id] from no label,
    a later one is greater than an earlier one: its prefix is longer, or as
    long and later in the alphabet, or the same with a greater number. *)
Theorem next_id_strictly_increasing (i j : nat) :
  (i < j)%nat →
  ∃ a b, nth_label i = Ok a ∧ nth_label j = Ok b ∧ label_ltb a b = true.
Proof. apply nth_label_lt. Qed.

Lemma next_id_strictly_increasing_witness :
  ∃ a b, nth_label 2 = Ok a ∧ nth_label 7 = Ok b ∧ label_ltb a b = true.
Proof.
  apply (next_id_strictly_increasing 2 7). lia.
Defined.

(** ** What [int] refuses *)

Lemma ascii_readable_space c : Py_ISSPACE c = true → ascii_readable c = true.
Proof.
  unfold ascii_readable. intros ->. by rewrite orb_true_r.
Qed.

Lemma skip_space_keeps c s :
  ascii_readable c = false → c ∈ s → c ∈ skip_space s.
Proof.
  intros Hc. induction s as [|x s IH]; intros Hin; [done|]. simpl.
  destruct (Py_ISSPACE x) eqn:Hx; [|done].
  apply elem_of_cons in Hin as [->|Hin]; [|by apply IH].
  apply ascii_readable_space in Hx. congruence.
Qed.

Lemma read_sign_keeps c s :
  ascii_readable c = false → c ∈ s → c ∈ (read_sign s).2.
Proof.
  intros Hc Hin. destruct s as [|x s]; [done|]. simpl.
  destruct (x =? 43) eqn:E1; [|destruct (x =? 45) eqn:E2]; simpl; try done.
  - apply elem_of_cons in Hin as [->|Hin]; [|done].
    unfold ascii_readable in Hc. rewrite E1 in Hc.
    by rewrite !orb_true_r in Hc.
  - apply elem_of_cons in Hin as [->|Hin]; [|done].
    unfold ascii_readable in Hc. rewrite E2 in Hc.
    by rewrite !orb_true_r in Hc.
Qed.

Lemma scan_digits_keeps c s :
  ascii_readable c = false → c ∈ s →
  ∀ prev digits acc,
    match scan_digits prev digits acc s with
    | Some (_, _, rest) => c ∈ rest
    | None => True
    end.
Proof.
  intros Hc. induction s as [|x s IH]; intros Hin prev digits acc.
  { by apply elem_of_nil in Hin. }
  simpl.
  destruct (is_ascii_digit x) eqn:Hd; [|destruct (x =? 95) eqn:Hu].
  - apply elem_of_cons in Hin as [->|Hin]; [|by apply IH].
    unfold ascii_readable in Hc. by rewrite Hd in Hc.
  - destruct (prev =? 95); [done|].
    apply elem_of_cons in Hin as [->|Hin]; [|by apply IH].
    unfold ascii_readable in Hc. rewrite Hu in Hc.
    by rewrite !orb_true_r in Hc.
  - by destruct (prev =? 95).
Qed.

Lemma long_from_string_refuses c s :
  ascii_readable c = false → c ∈ s → long_from_string s = Raise ValueError.
Proof.
  intros Hc Hin. unfold long_from_string.
  pose proof (read_sign_keeps c _ Hc (skip_space_keeps c s Hc Hin)) as Hs.
  destruct (read_sign (skip_space s)) as [sign s1]. simpl in Hs.
  destruct (starts_with_underscore s1); [done|].
  pose proof (scan_digits_keeps c s1 Hc Hs 0 0%nat 0%Z) as Hr.
  destruct (scan_digits 0 0 0 s1) as [[[digits z] rest]|]; [|done].
  destruct digits; [done|].
  apply (skip_space_keeps c rest Hc) in Hr.
  destruct (skip_space rest); [|done]. by apply elem_of_nil in Hr.
Qed.

Lemma transform_keeps_unreadable c s :
  int_readable c = false → c ∈ s →
  ∃ c', ascii_readable c' = false
        ∧ c' ∈ transform_decimal_and_space_to_ascii s.
Proof.
  intros Hc. induction s as [|x s IH]; intros Hin.
  { by apply elem_of_nil in Hin. }
  simpl.
  destruct (x <? 127) eqn:Hx;
    [|destruct (Py_UNICODE_ISSPACE x) eqn:Hsp;
      [|destruct (Py_UNICODE_TODECIMAL x) as [d|] eqn:Hdec]].
  - apply elem_of_cons in Hin as [->|Hin].
    + exists x. unfold int_readable in Hc. rewrite Hx in Hc.
      split; [done|apply list_elem_of_here].
    + destruct (IH Hin) as (c' & Hc' & Hin').
      exists c'. split; [done|by apply list_elem_of_further].
  - apply elem_of_cons in Hin as [->|Hin].
    + unfold int_readable in Hc. by rewrite Hx, Hsp in Hc.
    + destruct (IH Hin) as (c' & Hc' & Hin').
      exists c'. split; [done|by apply list_elem_of_further].
  - apply elem_of_cons in Hin as [->|Hin].
    + unfold int_readable in Hc. rewrite Hx, Hsp, Hdec in Hc.
      by rewrite bool_decide_eq_true_2 in Hc.
    + destruct (IH Hin) as (c' & Hc' & Hin').
      exists c'. split; [done|by apply list_elem_of_further].
  - exists 63. split; [reflexivity|apply list_elem_of_here].
Qed.

Lemma py_int_refuses c s :
  int_readable c = false → c ∈ s → py_int s = Raise ValueError.
Proof.
  intros Hc Hin.
  destruct (transform_keeps_unreadable c s Hc Hin) as (c' & Hc' & Hin').
  by apply (long_from_string_refuses c').
Qed.

(** * Further properties of the sequencer *)

(** ** The only exception of [next_id] *)

Lemma long_from_string_ValueError s e :
  long_from_string s = Raise e → e = ValueError.
Proof.
  unfold long_from_string.
  destruct (read_sign (skip_space s)) as [sign s1].
  destruct (starts_with_underscore s1); [congruence|].
  destruct (scan_digits 0 0 0 s1) as [[[digits z] rest]|]; [|congruence].
  destruct digits; [congruence|].
  destruct (skip_space rest); congruence.
Qed.

Lemma increment_loop_ValueError k (l : list N) e :
  (k ≤ length l)%nat → increment_loop k l = Raise e → e = ValueError.
Proof.
  revert l. induction k as [|i IH]; intros l Hk; simpl; [discriminate|].
  destruct (lookup_lt_is_Some_2 l i ltac:(lia)) as [c ->].
  destruct (c =? 90).
  - apply IH. rewrite length_insert. lia.
  - unfold chr. destruct (c + 1 <? 0x110000); simpl; congruence.
Qed.

Lemma next_id_raises_only_ValueError_aux (last : option pystr) (e : exn) :
  next_id last = Raise e → e = ValueError.
Proof.
  unfold next_id. destruct last as [[|c l]|]; try discriminate.
  destruct (py_int _) as [number|e'] eqn:Hint; simpl.
  - destruct (number + 1 >? 999)%Z; [|discriminate].
    destruct (slice_upto_minus3 (c :: l)) as [|x p] eqn:Hp;
      [simpl; discriminate|].
    destruct (increment_loop _ _) as [prefix|e'] eqn:Hloop;
      [simpl; discriminate|].
    intros [= <-]. by eapply increment_loop_ValueError; [|exact Hloop].
  - intros [= <-]. by apply (long_from_string_ValueError _ _ Hint).
Qed.

(** X1.  The only exception that [next_id] raises is [ValueError]: the
    index of the loop over [prefix_list] is always within the list. *)
Theorem next_id_raises_only_ValueError (last : option pystr) (e : exn) :
  next_id last = Raise e → e = ValueError.
Proof. apply next_id_raises_only_ValueError_aux. Qed.

Lemma next_id_raises_only_ValueError_witness :
  next_id (Some (ustr "ID")) = Raise ValueError ∧ ValueError = ValueError.
Proof.
  split; [reflexivity|].
  apply (next_id_raises_only_ValueError (Some (ustr "ID"))). reflexivity.
Defined.

(** ** The number that [int] reads from at most three characters *)

Lemma scan_digits_bound s :
  ∀ prev digits acc digits' z rest,
    scan_digits prev digits acc s = Some (digits', z, rest) →
    (0 ≤ acc)%Z →
    (acc ≤ z ∧ z + 1 ≤ (acc + 1) * 10 ^ Z.of_nat (length s))%Z.
Proof.
  induction s as [|c s IH]; intros prev digits acc digits' z rest H Hacc.
  - simpl in H. destruct (prev =? 95); [discriminate|].
    injection H as _ <- _. simpl. lia.
  - cbn [scan_digits] in H.
    assert (Hpow : (10 ^ Z.of_nat (length (c :: s))
                    = 10 * 10 ^ Z.of_nat (length s))%Z).
    { cbn [length]. rewrite Nat2Z.inj_succ. apply Z.pow_succ_r. lia. }
    assert (Hpos : (0 < 10 ^ Z.of_nat (length s))%Z)
      by (apply Z.pow_pos_nonneg; lia).
    rewrite Hpow.
    destruct (is_ascii_digit c) eqn:Hd; [|destruct (c =? 95) eqn:Hu].
    + unfold is_ascii_digit in Hd. apply andb_prop in Hd as [H1 H2].
      apply N.leb_le in H1. apply N.leb_le in H2.
      apply IH in H; [|lia]. nia.
    + destruct (prev =? 95); [discriminate|].
      apply IH in H; [|lia]. nia.
    + destruct (prev =? 95); [discriminate|].
      injection H as _ <- _. nia.
Qed.

Lemma skip_space_length s : (length (skip_space s) ≤ length s)%nat.
Proof.
  induction s as [|c s IH]; simpl; [lia|].
  destruct (Py_ISSPACE c); simpl; lia.
Qed.

Lemma transform_length s :
  (length (transform_decimal_and_space_to_ascii s) ≤ length s)%nat.
Proof.
  induction s as [|c s IH]; simpl; [lia|].
  destruct (c <? 127); [simpl; lia|].
  destruct (Py_UNICODE_ISSPACE c); [simpl; lia|].
  destruct (Py_UNICODE_TODECIMAL c); simpl; lia.
Qed.

Lemma read_sign_cases s :
  ((read_sign s).1 = 1%Z ∧ (length (read_sign s).2 ≤ length s)%nat)
  ∨ ((read_sign s).1 = (-1)%Z ∧ (length (read_sign s).2 < length s)%nat).
Proof.
  destruct s as [|c s]; simpl; [left; split; [done|lia]|].
  destruct (c =? 43); [|destruct (c =? 45)]; simpl.
  - left. split; [done|lia].
  - right. split; [done|lia].
  - left. split; [done|lia].
Qed.

Lemma long_from_string_bound s v :
  long_from_string s = Ok v → (length s ≤ 3)%nat → (-99 ≤ v ≤ 999)%Z.
Proof.
  unfold long_from_string. intros H Hlen.
  pose proof (skip_space_length s) as Hsk.
  pose proof (read_sign_cases (skip_space s)) as Hsign.
  destruct (read_sign (skip_space s)) as [sign s1]. simpl in Hsign.
  destruct (starts_with_underscore s1); [discriminate|].
  destruct (scan_digits 0 0 0 s1) as [[[digits z] rest]|] eqn:Hscan;
    [|discriminate].
  destruct digits; [discriminate|].
  destruct (skip_space rest); [|discriminate].
  injection H as <-.
  apply scan_digits_bound in Hscan as [Hlo Hhi]; [|lia].
  destruct Hsign as [[-> Hl]|[-> Hl]].
  - assert (10 ^ Z.of_nat (length s1) ≤ 10 ^ 3)%Z
      by (apply Z.pow_le_mono_r; lia).
    lia.
  - assert (10 ^ Z.of_nat (length s1) ≤ 10 ^ 2)%Z
      by (apply Z.pow_le_mono_r; lia).
    lia.
Qed.

Lemma slice_from_minus3_length s : (length (slice_from_minus3 s) ≤ 3)%nat.
Proof. unfold slice_from_minus3. rewrite length_drop. lia. Qed.

Lemma py_int_slice_bound s v :
  py_int (slice_from_minus3 s) = Ok v → (-99 ≤ v ≤ 999)%Z.
Proof.
  intros H. apply (long_from_string_bound _ _ H).
  pose proof (transform_length (slice_from_minus3 s)).
  pose proof (slice_from_minus3_length s). lia.
Qed.

Lemma signed_number_facts_all n :
  (-98 ≤ n ≤ 999)%Z → signed_number_facts n = true.
Proof.
  intros Hn.
  replace n with ((n + 98) - 98)%Z by lia.
  apply (Z_range_check (λ m, signed_number_facts (m - 98)) 1098);
    [vm_compute; reflexivity|lia].
Qed.

Lemma slice_from_minus3_suffix (p f : pystr) :
  length f = 3%nat → slice_from_minus3 (p ++ f) = f.
Proof.
  intros Hf. unfold slice_from_minus3. apply drop_app_length'.
  rewrite length_app. lia.
Qed.

Lemma slice_upto_minus3_suffix (p f : pystr) :
  length f = 3%nat → slice_upto_minus3 (p ++ f) = p.
Proof.
  intros Hf. unfold slice_upto_minus3. apply take_app_length'.
  rewrite length_app. lia.
Qed.

(** X2.  Whatever [next_id] returns ends with exactly three characters that
    are the rendering of a number from -98 to 999, and [int] reads that
    number back from them: a returned string never makes the [int] of the
    next call fail. *)
Theorem next_id_suffix_reads_back (last : option pystr) (s : pystr) :
  next_id last = Ok s →
  ∃ n, (-98 ≤ n ≤ 999)%Z
       ∧ s = slice_upto_minus3 s ++ format_03d n
       ∧ length (format_03d n) = 3%nat
       ∧ py_int (slice_from_minus3 s) = Ok n.
Proof.
  assert (Hshape : ∀ (p : pystr) n, (-98 ≤ n ≤ 999)%Z →
            (-98 ≤ n ≤ 999)%Z
            ∧ p ++ format_03d n = slice_upto_minus3 (p ++ format_03d n)
                                  ++ format_03d n
            ∧ length (format_03d n) = 3%nat
            ∧ py_int (slice_from_minus3 (p ++ format_03d n)) = Ok n).
  { intros p n Hn.
    pose proof (signed_number_facts_all n Hn) as H.
    unfold signed_number_facts in H. apply andb_prop in H as [H1 H2].
    apply Nat.eqb_eq in H1. apply bool_decide_eq_true_1 in H2.
    rewrite slice_upto_minus3_suffix, slice_from_minus3_suffix by done.
    split_and!; try done; lia. }
  unfold next_id. destruct last as [[|c l]|].
  - intros [= <-]. exists 1%Z. apply (Hshape (ustr "A") 1%Z). lia.
  - destruct (py_int _) as [number|e] eqn:Hint; simpl; [|discriminate].
    apply py_int_slice_bound in Hint.
    destruct (number + 1 >? 999)%Z eqn:Hgt.
    + destruct (match slice_upto_minus3 (c :: l) with
                | [] => _ | _ :: _ => _ end) as [prefix|e]; simpl;
        [|discriminate].
      intros [= <-]. exists 1%Z. apply Hshape. lia.
    + intros [= <-]. exists (number + 1)%Z. apply Hshape. lia.
  - intros [= <-]. exists 1%Z. apply (Hshape (ustr "A") 1%Z). lia.
Qed.

Lemma next_id_suffix_reads_back_witness :
  ∃ n, (-98 ≤ n ≤ 999)%Z
       ∧ ustr "x-11" = slice_upto_minus3 (ustr "x-11") ++ format_03d n
       ∧ length (format_03d n) = 3%nat
       ∧ py_int (slice_from_minus3 (ustr "x-11")) = Ok n.
Proof.
  apply (next_id_suffix_reads_back (Some (ustr "x-12"))). reflexivity.
Defined.

(** ** The loop on any prefix *)

(** X3.  Below the roll-over [next_id] does not look at the prefix: any
    characters followed by three digits from 000 to 998 give the same
    characters followed by the next number on three digits. *)
Theorem next_id_keeps_any_prefix (p : pystr) (n : Z) :
  (0 ≤ n < 999)%Z →
  next_id (Some (p ++ three_digits n)) = Ok (p ++ three_digits (n + 1)).
Proof. apply next_id_below_999. Qed.

Lemma next_id_keeps_any_prefix_witness :
  next_id (Some (ustr "r/x yz" ++ three_digits 0))
  = Ok (ustr "r/x yz" ++ three_digits (0 + 1)).
Proof. apply next_id_keeps_any_prefix. lia. Defined.

Lemma increment_loop_Z_run (a : list N) k b :
  increment_loop (length a + k) (a ++ replicate k 90 ++ b)
  = increment_loop (length a) (a ++ replicate k 65 ++ b).
Proof.
  revert b. induction k as [|k IH]; intros b.
  - by rewrite Nat.add_0_r.
  - assert (Hlen : length (a ++ replicate k 90) = (length a + k)%nat)
      by (rewrite length_app, length_replicate; lia).
    replace (a ++ replicate (S k) 90 ++ b)
      with ((a ++ replicate k 90) ++ 90 :: b)
      by (by rewrite replicate_S_end, <- !app_assoc).
    replace (a ++ replicate (S k) 65 ++ b)
      with (a ++ replicate k 65 ++ 65 :: b)
      by (by rewrite replicate_S_end, <- !app_assoc).
    replace (length a + S k)%nat with (S (length (a ++ replicate k 90)))
      by lia.
    cbn [increment_loop].
    rewrite list_lookup_middle by reflexivity. simpl.
    rewrite insert_middle, Hlen, <- app_assoc. apply IH.
Qed.

Lemma increment_loop_bump (p : list N) c b :
  c ≠ 90 →
  increment_loop (S (length p)) (p ++ c :: b)
  = c' ← chr (c + 1); Ok (p ++ c' :: b).
Proof.
  intros Hc. cbn [increment_loop].
  rewrite list_lookup_middle by reflexivity.
  destruct (c =? 90) eqn:E; [by apply N.eqb_eq in E|].
  destruct (chr (c + 1)); simpl; [|reflexivity].
  by rewrite insert_middle.
Qed.

Lemma increment_loop_after_Z_run (p : list N) c k :
  c ≠ 90 →
  increment_loop (length (p ++ [c] ++ replicate k 90))
    (p ++ [c] ++ replicate k 90)
  = c' ← chr (c + 1); Ok (p ++ [c'] ++ replicate k 65).
Proof.
  intros Hc.
  pose proof (increment_loop_Z_run (p ++ [c]) k []) as H.
  rewrite !app_nil_r, <- !app_assoc in H.
  replace (length (p ++ [c] ++ replicate k 90))
    with (length (p ++ [c]) + k)%nat
    by (rewrite !length_app, length_replicate; simpl; lia).
  rewrite H, length_app. simpl.
  replace (length p + 1)%nat with (S (length p)) by lia.
  apply increment_loop_bump, Hc.
Qed.

Lemma increment_loop_all_Z k :
  increment_loop k (replicate k 90) = Ok (replicate (S k) 65).
Proof.
  pose proof (increment_loop_Z_run [] k []) as H.
  simpl in H. by rewrite !app_nil_r in H.
Qed.

Lemma next_id_at_999_nonempty (p : pystr) :
  p ≠ [] →
  next_id (Some (p ++ ustr "999"))
  = prefix ← increment_loop (length p) p; Ok (prefix ++ ustr "001").
Proof.
  intros Hp. pose proof (next_id_at_999 p) as H.
  change (three_digits 999) with (ustr "999") in H. rewrite H.
  by destruct p.
Qed.

(** X4.  At the roll-over the loop changes the end of the prefix only: the
    trailing capital Z's become A's and the character before them, whatever
    it is, becomes the next code point (a small z does not wrap); a prefix
    made of [k] capital Z's becomes [k + 1] A's. *)
Theorem next_id_rollover_any_prefix :
  (∀ (p : pystr) (c : N) (k : nat),
     c ≠ 90 → c < 0x10FFFF →
     next_id (Some (p ++ [c] ++ replicate k 90 ++ ustr "999"))
     = Ok (p ++ [c + 1] ++ replicate k 65 ++ ustr "001"))
  ∧ (∀ k : nat,
       next_id (Some (replicate k 90 ++ ustr "999"))
       = Ok (replicate (S k) 65 ++ ustr "001")).
Proof.
  split.
  - intros p c k Hc Hmax.
    replace (p ++ [c] ++ replicate k 90 ++ ustr "999")
      with ((p ++ [c] ++ replicate k 90) ++ ustr "999")
      by (by rewrite <- !app_assoc).
    rewrite next_id_at_999_nonempty by (by destruct p).
    rewrite (increment_loop_after_Z_run p c k Hc).
    unfold chr. destruct (c + 1 <? 0x110000) eqn:Hlt.
    + simpl. by rewrite <- !app_assoc.
    + apply N.ltb_ge in Hlt. lia.
  - intros [|k]; [reflexivity|].
    rewrite next_id_at_999_nonempty by done.
    by rewrite length_replicate, increment_loop_all_Z.
Qed.

Lemma next_id_rollover_any_prefix_witness :
  next_id (Some (ustr "q" ++ [122] ++ replicate 2 90 ++ ustr "999"))
  = Ok (ustr "q" ++ [122 + 1] ++ replicate 2 65 ++ ustr "001").
Proof.
  apply (proj1 next_id_rollover_any_prefix); [discriminate|reflexivity].
Defined.

(** X5.  When the character before the trailing Z's is the last code point,
    U+10FFFF, [chr] has no next one and [next_id] raises [ValueError]. *)
Theorem next_id_rollover_past_last_code_point (p : pystr) (k : nat) :
  next_id (Some (p ++ [0x10FFFF] ++ replicate k 90 ++ ustr "999"))
  = Raise ValueError.
Proof.
  replace (p ++ [0x10FFFF] ++ replicate k 90 ++ ustr "999")
    with ((p ++ [0x10FFFF] ++ replicate k 90) ++ ustr "999")
    by (by rewrite <- !app_assoc).
  rewrite next_id_at_999_nonempty by (by destruct p).
  by rewrite (increment_loop_after_Z_run p 0x10FFFF k).
Qed.

(** ** The sequence of labels as a counter *)

Lemma rollover_arith (n : Z) :
  (0 ≤ n)%Z →
  (n mod 999 + 1 = 999 →
     (n + 1) / 999 = n / 999 + 1 ∧ (n + 1) mod 999 = 0)%Z
  ∧ (n mod 999 + 1 < 999 →
     (n + 1) / 999 = n / 999 ∧ (n + 1) mod 999 = n mod 999 + 1)%Z.
Proof.
  intros Hn.
  pose proof (Z.div_mod n 999 ltac:(lia)) as Hdm.
  pose proof (Z.mod_pos_bound n 999 ltac:(lia)) as Hb.
  split; intros H.
  - assert ((n + 1) = 999 * (n / 999 + 1) + 0)%Z as E by lia.
    split.
    + symmetry. apply (Z.div_unique_pos _ _ _ 0); lia.
    + symmetry. apply (Z.mod_unique_pos _ _ (n / 999 + 1)); lia.
  - assert ((n + 1) = 999 * (n / 999) + (n mod 999 + 1))%Z as E by lia.
    split.
    + symmetry. apply (Z.div_unique_pos _ _ _ (n mod 999 + 1)); lia.
    + symmetry. apply (Z.mod_unique_pos _ _ (n / 999)); lia.
Qed.

Lemma nth_label_S n s :
  nth_label n = Ok s → nth_label (S n) = next_id (Some s).
Proof. intros H. cbn [nth_label]. by rewrite H. Qed.

Lemma nth_label_decode (n : nat) :
  ∃ s, nth_label n = Ok s
       ∧ well_formed s = true
       ∧ prefix_value (label_prefix s) = (Z.of_nat n / 999 + 1)%Z
       ∧ label_number s = (Z.of_nat n mod 999 + 1)%Z.
Proof.
  induction n as [|n (s & Hs & Hwf & Hv & Hn)].
  - by exists (ustr "A001").
  - destruct (well_formed_inv s Hwf) as (Hsplit & Hup & Hrange).
    destruct (rollover_arith (Z.of_nat n) ltac:(lia)) as [Hroll Hstay].
    rewrite Nat2Z.inj_succ, <- Z.add_1_r, (nth_label_S n s Hs).
    destruct (Z.eq_dec (label_number s) 999%Z) as [E|E].
    + exists (prefix_succ (label_prefix s) ++ three_digits 1).
      destruct Hroll as [-> ->]; [lia|].
      split_and!.
      * rewrite Hsplit, E at 1.
        apply next_id_999_spec, upper_below_max, Hup.
      * apply well_formed_intro; [by apply prefix_succ_upper|lia].
      * rewrite label_prefix_app, prefix_value_succ by done. lia.
      * by rewrite label_number_app by lia.
    + exists (label_prefix s ++ three_digits (label_number s + 1)).
      destruct Hstay as [-> ->]; [lia|].
      split_and!.
      * rewrite Hsplit at 1. apply next_id_below_999. lia.
      * apply well_formed_intro; [done|lia].
      * by rewrite label_prefix_app.
      * rewrite label_number_app by lia. lia.
Qed.

(** X6.  The label number [n] of the sequence (counting from zero) encodes
    [n]: its prefix, read as a number in letters with A = 1 to Z = 26, is
    [n / 999 + 1], and its number is [n mod 999 + 1]. *)
Theorem nth_label_is_a_counter (n : nat) :
  ∃ s, nth_label n = Ok s
       ∧ prefix_value (label_prefix s) = (Z.of_nat n / 999 + 1)%Z
       ∧ label_number s = (Z.of_nat n mod 999 + 1)%Z.
Proof.
  destruct (nth_label_decode n) as (s & Hs & _ & Hv & Hn). by exists s.
Qed.

(** X7.  The sequence never hands out a label twice. *)
Theorem nth_label_injective (i j : nat) :
  i ≠ j → nth_label i ≠ nth_label j.
Proof.
  intros Hij H.
  destruct (nth_label_decode i) as (a & Ha & _ & Hva & Hna).
  destruct (nth_label_decode j) as (b & Hb & _ & Hvb & Hnb).
  assert (a = b) as -> by congruence.
  pose proof (Z.div_mod (Z.of_nat i) 999 ltac:(lia)).
  pose proof (Z.div_mod (Z.of_nat j) 999 ltac:(lia)).
  lia.
Qed.

Lemma nth_label_injective_witness : nth_label 3 ≠ nth_label 1002.
Proof. apply nth_label_injective. lia. Defined.

(** ** Every label with a prefix is handed out *)

Lemma prefix_value_nonneg p :
  forallb is_upper p = true → (0 ≤ prefix_value p)%Z.
Proof.
  induction p as [|c p IH] using rev_ind; intros Hp; [done|].
  rewrite forallb_app in Hp. apply andb_prop in Hp as [Hp Hc].
  simpl in Hc. rewrite andb_true_r in Hc. apply is_upper_bounds in Hc.
  rewrite prefix_value_snoc. specialize (IH Hp). lia.
Qed.

Lemma prefix_value_inj p q :
  forallb is_upper p = true → forallb is_upper q = true →
  prefix_value p = prefix_value q → p = q.
Proof.
  revert q. induction p as [|c p IH] using rev_ind;
    intros q Hp Hq; destruct q as [|d q _] using rev_ind; try done.
  - rewrite forallb_app in Hq. apply andb_prop in Hq as [Hq Hd].
    simpl in Hd. rewrite andb_true_r in Hd. apply is_upper_bounds in Hd.
    pose proof (prefix_value_nonneg q Hq).
    rewrite prefix_value_snoc. change (prefix_value []) with 0%Z. lia.
  - rewrite forallb_app in Hp. apply andb_prop in Hp as [Hp Hc].
    simpl in Hc. rewrite andb_true_r in Hc. apply is_upper_bounds in Hc.
    pose proof (prefix_value_nonneg p Hp).
    rewrite prefix_value_snoc. change (prefix_value []) with 0%Z. lia.
  - rewrite forallb_app in Hp. apply andb_prop in Hp as [Hp Hc].
    rewrite forallb_app in Hq. apply andb_prop in Hq as [Hq Hd].
    simpl in Hc, Hd. rewrite andb_true_r in Hc, Hd.
    apply is_upper_bounds in Hc. apply is_upper_bounds in Hd.
    rewrite !prefix_value_snoc. intros H.
    assert (prefix_value p = prefix_value q) as Hv by lia.
    rewrite (IH q Hp Hq Hv). f_equal. f_equal. lia.
Qed.

(** X8.  A well-formed label is handed out at some point of the sequence
    exactly when its prefix is not empty: every label with a prefix is
    reached, and the labels without one, 001 to 999, never are. *)
Theorem nth_label_reaches_every_label (s : pystr) :
  well_formed s = true →
  (label_prefix s ≠ [] ↔ ∃ n, nth_label n = Ok s).
Proof.
  intros Hwf. split; [|intros [n Hn]].
  2:{ destruct (nth_label_decode n) as (s' & Hs' & _ & Hv & _).
      assert (s' = s) as -> by congruence.
      intros Hnil. rewrite Hnil in Hv. change (prefix_value []) with 0%Z in Hv.
      pose proof (Z.div_pos (Z.of_nat n) 999 ltac:(lia) ltac:(lia)). lia. }
  intros Hne.
  destruct (well_formed_inv s Hwf) as (Hsplit & Hup & Hrange).
  assert (1 ≤ prefix_value (label_prefix s))%Z as Hv.
  { destruct (label_prefix s) as [|c p _] using rev_ind; [done|].
    rewrite forallb_app in Hup. apply andb_prop in Hup as [Hp Hc].
    simpl in Hc. rewrite andb_true_r in Hc. apply is_upper_bounds in Hc.
    pose proof (prefix_value_nonneg p Hp).
    rewrite prefix_value_snoc. lia. }
  set (v := prefix_value (label_prefix s)) in *.
  set (m := label_number s) in *.
  exists (Z.to_nat ((v - 1) * 999 + (m - 1))).
  destruct (nth_label_decode (Z.to_nat ((v - 1) * 999 + (m - 1))))
    as (s' & Hs' & Hwf' & Hv' & Hn').
  rewrite Z2Nat.id in Hv', Hn' by lia.
  assert (((v - 1) * 999 + (m - 1)) / 999 = v - 1)%Z as Hdiv
    by (symmetry; apply (Z.div_unique_pos _ _ _ (m - 1)); lia).
  assert (((v - 1) * 999 + (m - 1)) mod 999 = m - 1)%Z as Hmod
    by (symmetry; apply (Z.mod_unique_pos _ _ (v - 1)); lia).
  rewrite Hdiv in Hv'. rewrite Hmod in Hn'.
  destruct (well_formed_inv s' Hwf') as (Hsplit' & Hup' & _).
  rewrite Hs'. f_equal. rewrite Hsplit', Hsplit.
  f_equal.
  - apply prefix_value_inj; try done. fold v. lia.
  - f_equal. fold m. lia.
Qed.

Lemma nth_label_reaches_every_label_witness :
  (label_prefix (ustr "QXZ417") ≠ [] ↔ ∃ n, nth_label n = Ok (ustr "QXZ417"))
  ∧ (label_prefix (ustr "417") ≠ [] ↔ ∃ n, nth_label n = Ok (ustr "417")).
Proof.
  split; apply nth_label_reaches_every_label; reflexivity.
Defined.

(** ** What [int] accepts *)

Ltac char_cases :=
  unfold Py_ISSPACE, is_ascii_digit in *;
  repeat match goal with
         | |- context [?a <=? ?b] => destruct (N.leb_spec a b)
         | |- context [?a =? ?b] => destruct (N.eqb_spec a b)
         | H : context [?a <=? ?b] |- _ => destruct (N.leb_spec a b)
         | H : context [?a =? ?b] |- _ => destruct (N.eqb_spec a b)
         end;
  simpl in *; try done; try lia.

Lemma Py_ISSPACE_other c :
  Py_ISSPACE c = true →
  is_ascii_digit c = false ∧ (c =? 95) = false
  ∧ (c =? 43) = false ∧ (c =? 45) = false.
Proof. intros H. split_and!; char_cases. Qed.

Lemma is_ascii_digit_other c :
  is_ascii_digit c = true →
  Py_ISSPACE c = false ∧ (c =? 95) = false
  ∧ (c =? 43) = false ∧ (c =? 45) = false.
Proof. intros H. split_and!; char_cases. Qed.

Lemma skip_space_split s :
  ∃ ws, s = ws ++ skip_space s ∧ forallb Py_ISSPACE ws = true.
Proof.
  induction s as [|c s (ws & Hs & Hws)]; [by exists []|]. simpl.
  destruct (Py_ISSPACE c) eqn:Hc.
  - exists (c :: ws). simpl. rewrite Hc, Hws. split; [by f_equal|done].
  - by exists [].
Qed.

Lemma skip_space_all ws r :
  forallb Py_ISSPACE ws = true → skip_space (ws ++ r) = skip_space r.
Proof.
  induction ws as [|c ws IH]; [done|]. simpl. intros H.
  apply andb_prop in H as [-> H]. by apply IH.
Qed.

Lemma skip_space_nil s :
  skip_space s = [] ↔ forallb Py_ISSPACE s = true.
Proof.
  induction s as [|c s IH]; [done|]. simpl.
  destruct (Py_ISSPACE c); simpl; [done|]. split; discriminate.
Qed.

Lemma read_sign_split s :
  ∃ sg, s = sg ++ (read_sign s).2 ∧ (sg = [] ∨ sg = [43] ∨ sg = [45]).
Proof.
  destruct s as [|c s]; [exists []; by split; [|left]|]. simpl.
  destruct (N.eqb_spec c 43) as [->|_]; [|destruct (N.eqb_spec c 45) as [->|_]].
  - exists [43]. split; [done|]. right. by left.
  - exists [45]. split; [done|]. right. by right.
  - exists []. split; [done|]. by left.
Qed.

Lemma single_underscores_cons a b (l : pystr) :
  single_underscores (a :: b :: l)
  = negb ((a =? 95) && (b =? 95)) && single_underscores (b :: l).
Proof. reflexivity. Qed.

Lemma last_cons_cons' (a b : N) (l : pystr) :
  last (a :: b :: l) = last (b :: l).
Proof. reflexivity. Qed.

Lemma scan_digits_split s :
  ∀ prev digits acc digits' z rest,
    scan_digits prev digits acc s = Some (digits', z, rest) →
    ∃ u, s = u ++ rest
         ∧ forallb (λ c, is_ascii_digit c || (c =? 95)) u = true
         ∧ single_underscores (prev :: u) = true
         ∧ match last (prev :: u) with
           | Some c => (c =? 95) = false
           | None => True
           end
         ∧ (u = [] → digits' = digits).
Proof.
  induction s as [|c s IH]; intros prev digits acc digits' z rest H.
  - simpl in H. destruct (prev =? 95) eqn:Hp; [discriminate|].
    injection H as <- _ <-. exists []. by split_and!.
  - cbn [scan_digits] in H.
    destruct (is_ascii_digit c) eqn:Hd; [|destruct (c =? 95) eqn:Hu].
    + apply IH in H as (u & Hs & Hall & Hsingle & Hlast & _).
      exists (c :: u). split_and!; try done.
      * simpl. by rewrite Hs.
      * simpl. by rewrite Hd, Hall.
      * destruct (is_ascii_digit_other c Hd) as (_ & Hc & _).
        rewrite single_underscores_cons, Hc, andb_false_r. exact Hsingle.
    + destruct (prev =? 95) eqn:Hp; [discriminate|].
      apply IH in H as (u & Hs & Hall & Hsingle & Hlast & _).
      exists (c :: u). split_and!; try done.
      * simpl. by rewrite Hs.
      * simpl. by rewrite Hu, orb_true_r, Hall.
      * rewrite single_underscores_cons, Hp. exact Hsingle.
    + destruct (prev =? 95) eqn:Hp; [discriminate|].
      injection H as <- _ <-. exists []. by split_and!.
Qed.

Lemma scan_digits_numeral u :
  ∀ prev digits acc r,
    forallb (λ c, is_ascii_digit c || (c =? 95)) u = true →
    single_underscores (prev :: u) = true →
    match last (prev :: u) with
    | Some c => (c =? 95) = false
    | None => True
    end →
    match r with
    | c :: _ => is_ascii_digit c = false ∧ (c =? 95) = false
    | [] => True
    end →
    ∃ digits' z,
      scan_digits prev digits acc (u ++ r) = Some (digits', z, r)
      ∧ (digits ≤ digits')%nat
      ∧ match u with
        | c :: _ => is_ascii_digit c = true → (S digits ≤ digits')%nat
        | [] => True
        end.
Proof.
  induction u as [|c u IH]; intros prev digits acc r Hall Hsingle Hlast Hr.
  - simpl in Hlast. simpl. destruct r as [|c r].
    + simpl. rewrite Hlast. by eexists _, _.
    + destruct Hr as [Hr1 Hr2]. simpl. rewrite Hr1, Hr2, Hlast.
      by eexists _, _.
  - simpl in Hall. apply andb_prop in Hall as [Hc Hall].
    rewrite single_underscores_cons in Hsingle.
    apply andb_prop in Hsingle as [Hpc Hsingle].
    rewrite last_cons_cons' in Hlast.
    cbn [app scan_digits].
    destruct (is_ascii_digit c) eqn:Hd.
    + destruct (IH c (S digits) (acc * 10 + Z.of_N (c - 48))%Z r
                  Hall Hsingle Hlast Hr) as (d' & z & -> & Hle & _).
      eexists _, _. split_and!; [done|lia|]. intros _. lia.
    + simpl in Hc. rewrite Hc in *.
      rewrite andb_true_r in Hpc. apply negb_true_iff in Hpc. rewrite Hpc.
      destruct (IH c digits acc r Hall Hsingle Hlast Hr)
        as (d' & z & -> & Hle & _).
      eexists _, _. split_and!; [done|lia|done].
Qed.

Lemma forallb_last (f : N → bool) (u : pystr) c :
  forallb f u = true → last u = Some c → f c = true.
Proof.
  intros Hall Hlast. rewrite forallb_forall in Hall.
  apply Hall, list_elem_of_In. by apply last_Some_elem_of.
Qed.

Lemma long_from_string_literal t :
  (∃ v, long_from_string t = Ok v) ↔ int_literal t.
Proof.
  unfold long_from_string, int_literal. split.
  - intros [v H].
    destruct (skip_space_split t) as (ws1 & Ht & Hws1).
    destruct (read_sign_split (skip_space t)) as (sg & Hs1 & Hsg).
    destruct (read_sign (skip_space t)) as [sign s2]. simpl in Hs1.
    destruct (starts_with_underscore s2) eqn:Hus; [discriminate|].
    destruct (scan_digits 0 0 0 s2) as [[[digits z] rest]|] eqn:Hscan;
      [|discriminate].
    destruct digits as [|digits]; [discriminate|].
    destruct (skip_space rest) eqn:Hrest; [|discriminate].
    apply skip_space_nil in Hrest.
    apply scan_digits_split in Hscan
      as (u & Hs2 & Hall & Hsingle & Hlast & Hnil).
    exists ws1, sg, u, rest. split_and!; try done.
    { by rewrite Ht at 1; rewrite Hs1, Hs2. }
    destruct u as [|c u]; [by specialize (Hnil eq_refl)|].
    unfold is_numeral. rewrite Hall.
    subst s2. simpl in Hus.
    pose proof Hall as Hc. simpl in Hc. apply andb_prop in Hc as [Hc _].
    rewrite Hus, orb_false_r in Hc. rewrite Hc.
    cbn [single_underscores] in Hsingle. simpl in Hsingle.
    change (last (0 :: c :: u)) with (last (c :: u)) in Hlast.
    destruct (last (c :: u)) as [d|] eqn:Hl.
    + pose proof (forallb_last _ _ _ Hall Hl) as Hd. simpl in Hd.
      rewrite Hlast, orb_false_r in Hd. rewrite Hd. simpl. exact Hsingle.
    + by apply last_None in Hl.
  - intros (ws1 & sg & u & ws2 & -> & Hws1 & Hsg & Hnum & Hws2).
    unfold is_numeral in Hnum.
    apply andb_prop in Hnum as [Hnum Hsingle].
    apply andb_prop in Hnum as [Hnum Hlast].
    apply andb_prop in Hnum as [Hall Hfirst].
    destruct u as [|c u]; [discriminate|].
    destruct (is_ascii_digit_other c Hfirst) as (Hsp & Hus & Hplus & Hminus).
    rewrite skip_space_all by done.
    assert (∃ sign, read_sign (skip_space (sg ++ (c :: u) ++ ws2))
                    = (sign, (c :: u) ++ ws2)) as [sign ->].
    { destruct Hsg as [->|[->| ->]]; simpl.
      - rewrite Hsp. simpl. rewrite Hplus, Hminus. by eexists.
      - by eexists.
      - by eexists. }
    simpl starts_with_underscore. rewrite Hus.
    destruct (scan_digits_numeral (c :: u) 0 0%nat 0%Z ws2)
      as (d' & z & -> & _ & Hd); try done.
    + destruct (last (c :: u)) as [d|] eqn:Hl; [|done].
      change (last (0 :: c :: u)) with (last (c :: u)). rewrite Hl.
      by destruct (is_ascii_digit_other d Hlast) as (_ & -> & _).
    + destruct ws2 as [|w ws2]; [done|]. simpl in Hws2.
      apply andb_prop in Hws2 as [Hw _].
      by destruct (Py_ISSPACE_other w Hw) as (-> & -> & _).
    + specialize (Hd Hfirst). destruct d' as [|d']; [lia|].
      apply skip_space_nil in Hws2. rewrite Hws2. by eexists.
Qed.

Lemma py_int_accepts s : (∃ v, py_int s = Ok v) ↔ int_accepts s.
Proof. apply long_from_string_literal. Qed.

Lemma py_int_refuses_iff s : py_int s = Raise ValueError ↔ ¬ int_accepts s.
Proof.
  rewrite <- py_int_accepts. split.
  - intros H [v Hv]. congruence.
  - intros H. destruct (py_int s) as [v|e] eqn:E.
    + destruct H. by exists v.
    + by rewrite (long_from_string_ValueError _ _ E).
Qed.

(** ** When the roll-over runs past the last code point *)

Lemma rollover_overflows_snoc_Z p :
  rollover_overflows (p ++ [90]) = rollover_overflows p.
Proof. unfold rollover_overflows. by rewrite reverse_app. Qed.

Lemma rollover_overflows_snoc_other p c :
  c ≠ 90 → rollover_overflows (p ++ [c]) = (0x10FFFF <=? c).
Proof.
  intros Hc. unfold rollover_overflows. rewrite reverse_app. simpl.
  by destruct (N.eqb_spec c 90).
Qed.

Lemma increment_loop_overflow (p b : list N) :
  match increment_loop (length p) (p ++ b) with
  | Ok _ => rollover_overflows p = false
  | Raise e => e = ValueError ∧ rollover_overflows p = true
  end.
Proof.
  revert b. induction p as [|c p IH] using rev_ind; intros b; [done|].
  rewrite length_app, <- app_assoc. simpl.
  replace (length p + 1)%nat with (S (length p)) by lia.
  destruct (N.eq_dec c 90) as [->|Hc].
  - cbn [increment_loop]. rewrite list_lookup_middle by reflexivity. simpl.
    rewrite insert_middle, rollover_overflows_snoc_Z. apply IH.
  - rewrite increment_loop_bump, rollover_overflows_snoc_other by done.
    unfold chr. destruct (N.ltb_spec (c + 1) 0x110000); simpl.
    + apply N.leb_gt. lia.
    + split; [done|]. apply N.leb_le. lia.
Qed.

(** C8, as the code has it.  [next_id] does not check its argument; what
    it rejects is what [int] or [chr] rejects.  A string that is not a
    well-formed label is rejected, with [ValueError], exactly when it is not
    empty and either its last three characters (all of them, when it is
    shorter) are not a text that [int] accepts, or they read 999 and the
    roll-over of the prefix runs past the last code point.  Any other such
    string is accepted: [next_id] returns a string for it.  In particular a
    string is rejected when one of its last three characters is not a
    digit, white space, a sign or an underscore, a letter for instance. *)
Theorem next_id_rejects_exactly (s : pystr) :
  well_formed s = false →
  (next_id (Some s) = Raise ValueError
   ↔ s ≠ []
     ∧ (¬ int_accepts (slice_from_minus3 s)
        ∨ (py_int (slice_from_minus3 s) = Ok 999%Z
           ∧ rollover_overflows (slice_upto_minus3 s) = true)))
  ∧ (next_id (Some s) = Raise ValueError ∨ ∃ s', next_id (Some s) = Ok s')
  ∧ (∀ c, s ≠ [] → c ∈ slice_from_minus3 s → int_readable c = false →
          next_id (Some s) = Raise ValueError).
Proof.
  intros _. split_and!.
  - destruct s as [|x s]; [split; [discriminate|by intros [[] _]]|].
    set (l := x :: s). unfold next_id. fold l.
    rewrite <- py_int_refuses_iff.
    destruct (py_int (slice_from_minus3 l)) as [number|e] eqn:Hint.
    + simpl.
      destruct (number + 1 >? 999)%Z eqn:Hgt.
      * assert (number = 999%Z) as -> by
          (pose proof (py_int_slice_bound l number Hint); lia).
        pose proof (increment_loop_overflow (slice_upto_minus3 l) []) as H.
        rewrite app_nil_r in H.
        destruct (slice_upto_minus3 l) as [|y p] eqn:Hp.
        { simpl. split; [discriminate|].
          intros (_ & [?|[_ ?]]); discriminate. }
        rewrite <- Hp in *.
        destruct (increment_loop _ _) as [q|e]; simpl.
        -- split; [discriminate|].
           intros (_ & [?|[_ ?]]); [discriminate|congruence].
        -- destruct H as [-> H]. split; [|done].
           intros _. split; [done|]. right. by split.
      * split; [discriminate|].
        intros (_ & [?|[[= ->] _]]); [discriminate|]. simpl in Hgt. lia.
    + simpl. rewrite (long_from_string_ValueError _ _ Hint).
      split; [|done]. intros _. split; [done|]. by left.
  - destruct (next_id (Some s)) as [s'|e] eqn:E.
    + right. by exists s'.
    + left. by rewrite (next_id_raises_only_ValueError_aux _ _ E).
  - intros c Hs Hin Hc. unfold next_id.
    destruct s as [|x s']; [done|].
    by rewrite (py_int_refuses c _ Hc Hin).
Qed.

Lemma next_id_rejects_exactly_witness :
  (next_id (Some (ustr "A12_")) = Raise ValueError
   ↔ ustr "A12_" ≠ []
     ∧ (¬ int_accepts (slice_from_minus3 (ustr "A12_"))
        ∨ (py_int (slice_from_minus3 (ustr "A12_")) = Ok 999%Z
           ∧ rollover_overflows (slice_upto_minus3 (ustr "A12_")) = true)))
  ∧ (next_id (Some (ustr "A12_")) = Raise ValueError
     ∨ ∃ s', next_id (Some (ustr "A12_")) = Ok s')
  ∧ (∀ c, ustr "A12_" ≠ [] → c ∈ slice_from_minus3 (ustr "A12_") →
          int_readable c = false →
          next_id (Some (ustr "A12_")) = Raise ValueError).
Proof. apply next_id_rejects_exactly. reflexivity. Defined.

(** C8 does not hold as stated: a string that is not a label can be
    accepted.  The digits 000 are outside 001 to 999, a small letter is not
    a capital letter, and a single digit is not three digits, and yet
    [next_id] returns a string for each, as it does for the empty string. *)
Lemma next_id_accepts_ill_formed :
  well_formed (ustr "A000") = false
  ∧ next_id (Some (ustr "A000")) = Ok (ustr "A001")
  ∧ well_formed (ustr "a001") = false
  ∧ next_id (Some (ustr "a001")) = Ok (ustr "a002")
  ∧ well_formed (ustr "7") = false
  ∧ next_id (Some (ustr "7")) = Ok (ustr "008")
  ∧ well_formed [] = false
  ∧ next_id (Some []) = Ok (ustr "A001").
Proof. by split_and!. Qed.

(** Strings that are not labels and that [next_id] rejects although each
    of their last three characters is one that [int] can read. *)
Example next_id_rejects_readable_suffixes :
  next_id (Some (ustr "A12_")) = Raise ValueError
  ∧ next_id (Some (ustr "A+-1")) = Raise ValueError
  ∧ next_id (Some (ustr "A   ")) = Raise ValueError
  ∧ ¬ int_accepts (ustr "12_").
Proof.
  split_and!; try reflexivity.
  apply py_int_refuses_iff. reflexivity.
Qed.

(** * The append log *)

(** ** What [next_id] returns is never empty *)

Lemma format_03d_length n : (3 ≤ length (format_03d n))%nat.
Proof.
  unfold format_03d. rewrite !length_app, length_replicate. lia.
Qed.

Lemma app_format_03d_nonempty (p : pystr) n : p ++ format_03d n ≠ [].
Proof.
  intros H. apply (f_equal length) in H. rewrite length_app in H.
  pose proof (format_03d_length n). simpl in H. lia.
Qed.

Lemma next_id_nonempty last s : next_id last = Ok s → s ≠ [].
Proof.
  unfold next_id. destruct last as [[|c l]|]; try (intros [= <-]; done).
  destruct (py_int _) as [number|e]; simpl; [|done].
  destruct (number + 1 >? 999)%Z.
  - destruct (match slice_upto_minus3 (c :: l) with
              | [] => _ | _ :: _ => _ end) as [prefix|e]; simpl; [|done].
    intros [= <-]. apply app_format_03d_nonempty.
  - intros [= <-]. apply app_format_03d_nonempty.
Qed.

Lemma well_formed_nonempty l : well_formed l = true → l ≠ [].
Proof. by destruct l. Qed.

(** ** Start-up *)

Lemma read_last_id_snoc (t : table) (last : pystr) (p : post) :
  last ≠ [] → read_last_id (t ++ [new_row last p]) = Ok last.
Proof.
  intros Hne. unfold read_last_id, index_last.
  rewrite last_snoc. simpl. by destruct last.
Qed.

Lemma read_last_id_cell (rows : table) (cells : row) (paras : cell)
    (children : paragraph) (L : pystr) :
  read_last_id (rows ++ [((Text L :: children) :: paras) :: cells]) = Ok L.
Proof. unfold read_last_id, index_last. by rewrite last_snoc. Qed.

Lemma startup_last_id (t : table) (ts : list table) :
  last_id <$> startup (Some (Ods (t :: ts))) = next_id (try_read_last_id t).
Proof.
  unfold startup. simpl. by destruct (next_id (try_read_last_id t)).
Qed.

Lemma startup_fields file st :
  startup file = Ok st →
  ods_file st = file ∧ seen_posts st = ∅ ∧ console st = [].
Proof.
  unfold startup. intros H.
  destruct file as [[[|t ts]|e]|]; simpl in H; try discriminate.
  - destruct (next_id (try_read_last_id t)); simpl in H; [|discriminate].
    by injection H as <-.
  - by injection H as <-.
Qed.

Lemma startup_ods_file file st : startup file = Ok st → ods_file st = file.
Proof. intros H. by destruct (startup_fields file st H). Qed.

Lemma startup_resumable file st : startup file = Ok st → resumable st.
Proof.
  intros H. split.
  - by rewrite (startup_ods_file file st H), H.
  - unfold startup in H.
    destruct file as [[[|t ts]|e]|]; simpl in H; try discriminate.
    + destruct (next_id (try_read_last_id t)) eqn:E; simpl in H;
        [|discriminate].
      injection H as <-. simpl. by eapply next_id_nonempty.
    + by injection H as <-.
Qed.

Lemma banner_fields pr1 pr2 st st' :
  banner pr1 pr2 st = Ok st' →
  table_ st' = table_ st ∧ other_tables st' = other_tables st
  ∧ last_id st' = last_id st ∧ seen_posts st' = seen_posts st
  ∧ ods_file st' = ods_file st.
Proof.
  unfold banner, print.
  destruct pr1; [discriminate|]. destruct pr2; [discriminate|]. simpl.
  by intros [= <-].
Qed.

Lemma banner_resumable pr1 pr2 st st' :
  banner pr1 pr2 st = Ok st' → resumable st → resumable st'.
Proof.
  intros H [H1 H2]. destruct (banner_fields _ _ _ _ H) as (_ & _ & Hl & _ & Hf).
  unfold resumable. by rewrite Hl, Hf.
Qed.

Lemma saved_label_read_back reload (t : table) (ts : list table) l p :
  keeps_labels reload → well_formed l = true →
  last_id <$> startup (Some (Ods (reload ((t ++ [new_row l p]) :: ts))))
  = next_id (Some l).
Proof.
  intros Hkeeps Hwf.
  destruct (Hkeeps t ts l p Hwf) as (t' & ts' & -> & Hread).
  rewrite startup_last_id. unfold try_read_last_id. by rewrite Hread.
Qed.

(** ** One turn of the loop *)

Lemma loop_body_cases reload p sv pr st :
  (id p ∈ seen_posts st ∧ loop_body reload p sv pr st = (st, None))
  ∨ ((id p ∉ seen_posts st)
     ∧ ∃ st' o,
         loop_body reload p sv pr st = (st', o)
         ∧ table_ st' = table_ st ++ [new_row (last_id st) p]
         ∧ other_tables st' = other_tables st
         ∧ seen_posts st' = {[ id p ]} ∪ seen_posts st
         ∧ ((∃ e opened,
               sv = SaveRaises e opened ∧ o = Some e
               ∧ ods_file st' = (if opened then Some (Broken BadZipFile)
                                 else ods_file st)
               ∧ last_id st' = last_id st ∧ console st' = console st)
            ∨ (sv = SaveReturns
               ∧ ods_file st' = Some (Ods (reload (doc st')))
               ∧ ((∃ e, pr = Some e ∧ o = Some e
                        ∧ last_id st' = last_id st
                        ∧ console st' = console st)
                  ∨ (pr = None
                     ∧ console st'
                       = console st ++ [console_line (last_id st) p]
                     ∧ ((o = None
                         ∧ next_id (Some (last_id st)) = Ok (last_id st'))
                        ∨ (o = Some ValueError
                           ∧ last_id st' = last_id st
                           ∧ next_id (Some (last_id st))
                             = Raise ValueError))))))).
Proof.
  destruct (decide (id p ∈ seen_posts st)) as [Hin|Hout].
  - left. split; [done|]. unfold loop_body. by rewrite bool_decide_eq_true_2.
  - right. split; [done|]. unfold loop_body.
    rewrite bool_decide_eq_false_2 by done.
    destruct sv as [|e opened].
    + destruct pr as [e|]; unfold print; cbv beta iota.
      * eexists _, _. split; [reflexivity|]. simpl. split_and!; try done.
        right. split_and!; try done. left. by exists e.
      * destruct (next_id (Some (last_id st))) as [l|e] eqn:E.
        -- eexists _, _. split; [reflexivity|]. simpl. split_and!; try done.
           right. split_and!; try done. right. split_and!; try done.
           by left.
        -- pose proof (next_id_raises_only_ValueError_aux _ _ E) as ->.
           eexists _, _. split; [reflexivity|]. simpl. split_and!; try done.
           right. split_and!; try done. right. split_and!; try done.
           by right.
    + eexists _, _. split; [reflexivity|]. simpl. split_and!; try done.
      left. by exists e, opened.
Qed.

Lemma loop_body_skip reload p sv pr st :
  id p ∈ seen_posts st → loop_body reload p sv pr st = (st, None).
Proof.
  intros H. unfold loop_body. by rewrite bool_decide_eq_true_2.
Qed.

Lemma loop_body_seen reload p sv pr st st' :
  loop_body reload p sv pr st = (st', None) →
  id p ∈ seen_posts st' ∧ seen_posts st ⊆ seen_posts st'.
Proof.
  destruct (loop_body_cases reload p sv pr st)
    as [[Hin ->]|(_ & st1 & o & -> & _ & _ & Hseen & _)].
  - intros [= <-]. by split.
  - intros [= <- ->]. rewrite Hseen. split; [|apply union_subseteq_r].
    apply elem_of_union_l. by apply elem_of_singleton.
Qed.

Lemma loop_body_resumable reload p sv pr st st' :
  keeps_labels reload →
  well_formed (last_id st) = true → resumable st →
  loop_body reload p sv pr st = (st', None) →
  well_formed (last_id st') = true ∧ resumable st'.
Proof.
  intros Hkeeps Hwf Hres.
  destruct (loop_body_cases reload p sv pr st)
    as [[Hin ->]|(_ & st1 & o & -> & Ht & Hts & _ & Hcase)].
  - by intros [= <-].
  - intros [= <- ->].
    destruct Hcase as [(e & opened & _ & ? & _)|(_ & Hf & Hcase)];
      [discriminate|].
    destruct Hcase as [(e & _ & ? & _)|(_ & _ & [[_ Hn]|[? _]])];
      try discriminate.
    destruct (next_id_label _ Hwf) as (l & Hl & Hwl & _).
    assert (last_id st1 = l) as -> by congruence.
    split; [done|]. split; [|by eapply next_id_nonempty].
    rewrite Hf. unfold doc. rewrite Ht, Hts.
    by rewrite saved_label_read_back.
Qed.

(** ** The loop *)

Lemma main_loop_app reload l1 l2 st :
  main_loop reload (l1 ++ l2) st =
    match main_loop reload l1 st with
    | (st', None) => main_loop reload l2 st'
    | (st', Some e) => (st', Some e)
    end.
Proof.
  revert st. induction l1 as [|[p sv pr|e] l1 IH]; intros st;
    [reflexivity| |reflexivity].
  simpl. destruct (loop_body reload p sv pr st) as [st' [e|]];
    [reflexivity|apply IH].
Qed.

Lemma main_loop_seen reload l st st' :
  main_loop reload l st = (st', None) → seen_posts st ⊆ seen_posts st'.
Proof.
  revert st. induction l as [|[p sv pr|e] l IH]; intros st; simpl.
  - by intros [= <-].
  - destruct (loop_body reload p sv pr st) as [st1 [e|]] eqn:E;
      [discriminate|].
    intros H. apply loop_body_seen in E as [_ E]. apply IH in H. set_solver.
  - discriminate.
Qed.

Lemma main_loop_resumable reload l st st' :
  keeps_labels reload →
  well_formed (last_id st) = true → resumable st →
  main_loop reload l st = (st', None) →
  well_formed (last_id st') = true ∧ resumable st'.
Proof.
  intros Hkeeps. revert st.
  induction l as [|[p sv pr|e] l IH]; intros st Hwf Hres; simpl.
  - by intros [= <-].
  - destruct (loop_body reload p sv pr st) as [st1 [e|]] eqn:E;
      [discriminate|].
    destruct (loop_body_resumable _ _ _ _ _ _ Hkeeps Hwf Hres E).
    by apply IH.
  - discriminate.
Qed.

Lemma started_resumable file st0 pr1 pr2 st0' :
  startup file = Ok st0 → banner pr1 pr2 st0 = Ok st0' →
  resumable st0' ∧ last_id st0' = last_id st0.
Proof.
  intros H0 Hb. split.
  - eapply banner_resumable; [done|]. by eapply startup_resumable.
  - by destruct (banner_fields _ _ _ _ Hb) as (_ & _ & -> & _).
Qed.

(** ** The rewriting of odfpy keeps labels *)

Lemma well_formed_chars l c :
  well_formed l = true → c ∈ l →
  is_upper c = true ∨ is_ascii_digit c = true.
Proof.
  unfold well_formed. intros H Hc.
  repeat (apply andb_prop in H as [H ?]).
  rewrite <- (take_drop (length l - 3) l) in Hc.
  apply elem_of_app in Hc as [Hc|Hc]; apply list_elem_of_In in Hc.
  - left. unfold label_prefix in H.
    rewrite forallb_forall in H. by apply H.
  - right.
    match goal with
    | Hd : forallb is_ascii_digit _ = true |- _ =>
        unfold label_digits in Hd; rewrite forallb_forall in Hd;
        by apply Hd
    end.
Qed.

Lemma label_char_not_filtered c : 48 ≤ c ≤ 90 → xml_filtered c = false.
Proof.
  intros Hc.
  assert (Hall : forallb (λ c, negb (xml_filtered c)) (N.of_nat <$> seq 48 43)
                 = true) by (vm_compute; reflexivity).
  rewrite forallb_forall in Hall. apply negb_true_iff, Hall.
  replace c with (N.of_nat (N.to_nat c)) by lia.
  apply in_map, in_seq. lia.
Qed.

Lemma label_not_rewritten l :
  well_formed l = true →
  (λ c, if xml_filtered c then 0xFFFD else c) <$> l = l.
Proof.
  intros Hwf. rewrite <- (list_fmap_id l) at 2.
  apply list_fmap_ext. intros i c Hc.
  apply list_elem_of_lookup_2 in Hc.
  assert (48 ≤ c ≤ 90) as Hrange.
  { destruct (well_formed_chars l c Hwf Hc) as [H|H].
    - apply is_upper_bounds in H. lia.
    - unfold is_ascii_digit in H. apply andb_prop in H as [H1 H2].
      apply N.leb_le in H1. apply N.leb_le in H2. lia. }
  by rewrite (label_char_not_filtered c Hrange).
Qed.

Lemma rewriting_reload_keeps_labels : keeps_labels rewriting_reload.
Proof.
  intros t ts l p Hwf. unfold rewriting_reload.
  set (row_f := fmap (M := list) (fmap (M := list)
                  (fmap (M := list) rewritten_node))).
  exists ((row_f <$> t) ++ [row_f (new_row l p)]),
         (fmap (M := list) (fmap (M := list) row_f) ts).
  split; [by rewrite fmap_cons, fmap_app|].
  unfold read_last_id, index_last. rewrite last_snoc.
  pose proof (well_formed_nonempty l Hwf) as Hne.
  pose proof (label_not_rewritten l Hwf) as Hl.
  assert (HP : P l = [Text l]) by (by destruct l).
  unfold row_f, new_row, text_cell. rewrite HP.
  cbn [fmap list_fmap index_first mbind result_bind rewritten_node
       firstChild_data].
  f_equal. exact Hl.
Qed.

(** ** The claims about the append log *)

(** C5.  When the file holds a document and [L] is the text in the first
    cell of the last row of its first table, the start-up code ends with
    [last_id] equal to [next_id L].  And when the process was started with a
    well-formed label, then after any run that no exception has ended a new
    start from the file on disk gives the [last_id] that the process
    holds. *)
Theorem startup_resumes_from_last_row :
  (∀ (rows : table) (cells : row) (paras : cell) (children : paragraph)
     (L : pystr) (ts : list table),
     last_id <$> startup
       (Some (Ods ((rows ++ [((Text L :: children) :: paras) :: cells])
                   :: ts)))
     = next_id (Some L))
  ∧ (∀ (reload : document → document) file st0 pr1 pr2 st0' stream st,
       keeps_labels reload →
       startup file = Ok st0 → banner pr1 pr2 st0 = Ok st0' →
       well_formed (last_id st0) = true →
       main_loop reload stream st0' = (st, None) →
       last_id <$> startup (ods_file st) = Ok (last_id st)).
Proof.
  split.
  - intros rows cells paras children L ts. rewrite startup_last_id.
    unfold try_read_last_id. by rewrite read_last_id_cell.
  - intros reload file st0 pr1 pr2 st0' stream st Hkeeps H0 Hb Hwf Hrun.
    destruct (started_resumable _ _ _ _ _ H0 Hb) as [Hres Hl].
    rewrite <- Hl in Hwf.
    by destruct (main_loop_resumable reload stream st0' st Hkeeps Hwf Hres
                   Hrun) as [_ [? _]].
Qed.

Lemma startup_resumes_from_last_row_witness :
  last_id <$> startup
    (Some (Ods (([header]
                 ++ [((Text (ustr "C417") :: []) :: [])
                     :: (text_cell <$> [ustr "pics"; ustr "T1"])])
                :: [])))
  = next_id (Some (ustr "C417"))
  ∧ last_id <$> startup (ods_file state_after_k1)
    = Ok (last_id state_after_k1).
Proof.
  split.
  - apply (proj1 startup_resumes_from_last_row).
  - apply (proj2 startup_resumes_from_last_row rewriting_reload None
             (mkState [header] [] (ustr "A001") ∅ None []) None None
             fresh_state [Deliver post_k1 SaveReturns None]).
    + apply rewriting_reload_keeps_labels.
    + reflexivity.
    + reflexivity.
    + reflexivity.
    + reflexivity.
Defined.

(** C6 fails on the code.  A file that holds the header row and nothing else
    has a last row, the header, whose first cell reads ID; the start-up code
    passes that text to [next_id], and [int] raises [ValueError] outside the
    [try] block. *)
Theorem startup_header_only_raises :
  read_last_id [header] = Ok (ustr "ID")
  ∧ startup (Some (Ods [[header]])) = Raise ValueError.
Proof. by split. Qed.




(** C9.  A delivery whose key was delivered before in the same run changes
    nothing: the run with it equals the run without it, whatever a save or
    a [print] would have done.  A first delivery followed by a second one
    with the same key adds one row, saves once and advances [last_id]
    once. *)
Theorem duplicate_delivery_skipped (reload : document → document) :
  (∀ stream1 p sv pr stream2 p' sv' pr' st,
     id p' = id p →
     main_loop reload
       (stream1 ++ Deliver p sv pr :: stream2 ++ [Deliver p' sv' pr']) st
     = main_loop reload (stream1 ++ Deliver p sv pr :: stream2) st)
  ∧ (∀ st p p' sv' pr' l,
       id p' = id p → id p ∉ seen_posts st →
       next_id (Some (last_id st)) = Ok l →
       main_loop reload
         [Deliver p SaveReturns None; Deliver p' sv' pr'] st
       = (mkState (table_ st ++ [new_row (last_id st) p]) (other_tables st)
            l ({[ id p ]} ∪ seen_posts st)
            (Some (Ods (reload ((table_ st ++ [new_row (last_id st) p])
                                :: other_tables st))))
            (console st ++ [console_line (last_id st) p]),
          None)).
Proof.
  split.
  - intros stream1 p sv pr stream2 p' sv' pr' st Hid.
    rewrite !main_loop_app.
    destruct (main_loop reload stream1 st) as [st1 [e|]]; [reflexivity|].
    simpl. destruct (loop_body reload p sv pr st1) as [st2 [e|]] eqn:Hbody;
      [reflexivity|].
    rewrite main_loop_app.
    destruct (main_loop reload stream2 st2) as [st3 [e|]] eqn:Hrun;
      [reflexivity|].
    simpl. rewrite loop_body_skip; [reflexivity|].
    apply loop_body_seen in Hbody as [Hin _].
    apply main_loop_seen in Hrun. rewrite Hid. by apply Hrun.
  - intros st p p' sv' pr' l Hid Hseen Hnext. simpl.
    unfold loop_body at 1. rewrite bool_decide_eq_false_2 by done.
    unfold print. rewrite Hnext. rewrite loop_body_skip; [reflexivity|].
    simpl. rewrite Hid. apply elem_of_union_l. by apply elem_of_singleton.
Qed.

Lemma duplicate_delivery_skipped_witness :
  main_loop rewriting_reload
    ([Deliver post_k1 SaveReturns None]
     ++ Deliver post_k2 SaveReturns None
     :: [Deliver post_k3 SaveReturns None]
     ++ [Deliver (mkPost (ustr "k2") [] []) (SaveRaises IOError true)
           (Some BrokenPipeError)])
    fresh_state
  = main_loop rewriting_reload
      ([Deliver post_k1 SaveReturns None]
       ++ Deliver post_k2 SaveReturns None
       :: [Deliver post_k3 SaveReturns None])
      fresh_state.
Proof.
  apply (proj1 (duplicate_delivery_skipped rewriting_reload)). reflexivity.
Defined.

(** ** The scenarios of the specification *)

Example startup_without_file :
  startup None ≫= banner None None = Ok fresh_state.
Proof. reflexivity. Qed.

Example three_posts_three_rows :
  let st := (main_loop rewriting_reload
               [Deliver post_k1 SaveReturns None;
                Deliver post_k2 SaveReturns None;
                Deliver post_k3 SaveReturns None] fresh_state).1 in
  ods_file st = Some (Ods (doc st))
  ∧ doc st =
      [[ header;
         text_cell <$> [ustr "A001"; ustr "a"; ustr "T1"; ustr "https://redd.it/k1"];
         text_cell <$> [ustr "A002"; ustr "b"; ustr "T2"; ustr "https://redd.it/k2"];
         text_cell <$> [ustr "A003"; ustr "c"; ustr "T3"; ustr "https://redd.it/k3"] ]]
  ∧ last_id st = ustr "A004".
Proof. by split_and!. Qed.

Example failed_second_save_restarts_at_A002 :
  let run := main_loop rewriting_reload
               [Deliver post_k1 SaveReturns None;
                Deliver post_k2 (SaveRaises IOError false) None]
               fresh_state in
  run.2 = Some IOError
  ∧ last_id <$> startup (ods_file run.1) = Ok (ustr "A002").
Proof. by split. Qed.

Example labels_around_the_first_rollover :
  nth_label 998 = Ok (ustr "A999") ∧ nth_label 999 = Ok (ustr "B001")
  ∧ label_ltb (ustr "Z999") (ustr "AA001") = true
  ∧ label_ltb (ustr "AZ999") (ustr "BA001") = true
  ∧ label_ltb (ustr "B001") (ustr "A999") = false.
Proof. by vm_compute. Qed.

(** A label with a character that the writer rewrites does not come back:
    the process holds DEL 001 after the row DEL 999, and a new start from
    the file reads U+FFFD 999. *)
Example rewritten_label_is_not_resumed :
  let st0 := mkState [header] [] ([127] ++ ustr "999") ∅ None [] in
  let st := (main_loop rewriting_reload [Deliver post_k1 SaveReturns None]
               st0).1 in
  last_id st = [128] ++ ustr "001"
  ∧ last_id <$> startup (ods_file st) = Ok ([0xFFFE] ++ ustr "001").
Proof. by split. Qed.

(** The interrupt from the keyboard while the loop waits for the stream:
    the clause around the loop prints and the script ends. *)
Example interrupt_while_waiting :
  except_KeyboardInterrupt None
    (main_loop rewriting_reload
       [Deliver post_k1 SaveReturns None; StreamRaises KeyboardInterrupt]
       fresh_state)
  = (mkState (table_ state_after_k1) [] (ustr "A002")
       (seen_posts state_after_k1) (ods_file state_after_k1)
       (console state_after_k1
        ++ [[10] ++ ustr "Scraper stopped by user."]),
     None).
Proof. reflexivity. Qed.

(** * Further properties of the append log *)

(** ** Start-up *)


(** X10.  When the file exists and nothing can be read from the first cell
    of its last row (no row, no cell, no paragraph, no text node), or the
    text read is empty, the start-up code keeps the document as it is and
    starts the numbering again at A001. *)
Theorem startup_restarts_numbering (t : table) (ts : list table) :
  (∀ L, read_last_id t = Ok L → L = []) →
  ∃ st, startup (Some (Ods (t :: ts))) = Ok st
        ∧ last_id st = ustr "A001"
        ∧ table_ st = t ∧ other_tables st = ts.
Proof.
  intros H. unfold startup. simpl.
  assert (next_id (try_read_last_id t) = Ok (ustr "A001")) as ->.
  { unfold try_read_last_id.
    destruct (read_last_id t) as [L|e]; [|done]. by rewrite (H L). }
  eexists. by split_and!.
Qed.

Lemma startup_restarts_numbering_witness :
  ∃ st, startup
          (Some (Ods ([header; new_row (ustr "A007") post_k1; []] :: [])))
        = Ok st
        ∧ last_id st = ustr "A001"
        ∧ table_ st = [header; new_row (ustr "A007") post_k1; []]
        ∧ other_tables st = [].
Proof.
  apply startup_restarts_numbering. intros L H. discriminate H.
Defined.

(** ** Rows are only ever added *)




(** ** One row for every new key *)

Lemma main_loop_counts reload stream :
  ∀ st st' o,
    main_loop reload stream st = (st', o) →
    (length (table_ st') + size (seen_posts st)
     = length (table_ st) + size (seen_posts st'))%nat.
Proof.
  induction stream as [|[p sv pr|e] stream IH]; intros st st' o; simpl.
  - by intros [= <- <-].
  - destruct (loop_body_cases reload p sv pr st)
      as [[_ ->]|(Hnew & st1 & o1 & -> & Ht & _ & Hseen & _)].
    + apply IH.
    + assert (length (table_ st1) + size (seen_posts st)
              = length (table_ st) + size (seen_posts st1))%nat as Hstep.
      { rewrite Ht, Hseen, length_app, size_union, size_singleton
          by (by apply disjoint_singleton_l).
        simpl. lia. }
      destruct o1 as [e|].
      * by intros [= <- <-].
      * intros Hrun. apply IH in Hrun. lia.
  - by intros [= <- <-].
Qed.

(** X12.  Whatever ends the loop, the number of rows added to the table in
    memory is the number of keys added to [seen_posts]: one row for every
    key that was new, none for a key delivered again. *)
Theorem main_loop_one_row_per_new_key (reload : document → document)
    (stream : list event) (st st' : state) (o : option exn) :
  main_loop reload stream st = (st', o) →
  (length (table_ st') + size (seen_posts st)
   = length (table_ st) + size (seen_posts st'))%nat.
Proof. apply main_loop_counts. Qed.

Lemma main_loop_one_row_per_new_key_witness :
  (length (table_ (main_loop rewriting_reload
                     [Deliver post_k1 SaveReturns None;
                      Deliver post_k1 SaveReturns None;
                      Deliver post_k2 (SaveRaises IOError true) None;
                      Deliver post_k3 SaveReturns None]
                     fresh_state).1)
   + size (seen_posts fresh_state)
   = length (table_ fresh_state)
     + size (seen_posts (main_loop rewriting_reload
                           [Deliver post_k1 SaveReturns None;
                            Deliver post_k1 SaveReturns None;
                            Deliver post_k2 (SaveRaises IOError true) None;
                            Deliver post_k3 SaveReturns None]
                           fresh_state).1))%nat.
Proof.
  apply (main_loop_one_row_per_new_key rewriting_reload
           [Deliver post_k1 SaveReturns None;
            Deliver post_k1 SaveReturns None;
            Deliver post_k2 (SaveRaises IOError true) None;
            Deliver post_k3 SaveReturns None] fresh_state _ (Some IOError)).
  reflexivity.
Defined.

(** ** Labels stay well-formed *)

Lemma main_loop_well_formed reload stream :
  ∀ st st' o,
    well_formed (last_id st) = true →
    main_loop reload stream st = (st', o) →
    well_formed (last_id st') = true
    ∧ (∀ e, o = Some e →
         StreamRaises e ∈ stream
         ∨ ∃ p sv pr,
             Deliver p sv pr ∈ stream
             ∧ ((∃ opened, sv = SaveRaises e opened)
                ∨ (sv = SaveReturns ∧ pr = Some e))).
Proof.
  induction stream as [|[p sv pr|e] stream IH]; intros st st' o Hwf; simpl.
  - intros [= <- <-]. split; [done|]. discriminate.
  - assert (Hlift : ∀ st1,
              well_formed (last_id st1) = true →
              main_loop reload stream st1 = (st', o) →
              well_formed (last_id st') = true
              ∧ (∀ e, o = Some e →
                   StreamRaises e ∈ Deliver p sv pr :: stream
                   ∨ ∃ p' sv' pr',
                       Deliver p' sv' pr' ∈ Deliver p sv pr :: stream
                       ∧ ((∃ opened, sv' = SaveRaises e opened)
                          ∨ (sv' = SaveReturns ∧ pr' = Some e)))).
    { intros st1 Hwf1 Hrun. destruct (IH _ _ _ Hwf1 Hrun) as [H1 H2].
      split; [done|]. intros e He.
      destruct (H2 e He) as [H|(p' & sv' & pr' & Hin & H)].
      - left. by apply list_elem_of_further.
      - right. exists p', sv', pr'. split; [|done].
        by apply list_elem_of_further. }
    destruct (loop_body_cases reload p sv pr st)
      as [[_ ->]|(_ & st1 & o1 & -> & _ & _ & _ & Hcase)];
      [by apply Hlift|].
    destruct (next_id_label _ Hwf) as (l & Hl & Hwl & _).
    destruct Hcase as [(e & opened & -> & -> & _ & Hid & _)
                      |(-> & _ & Hcase)].
    + intros [= <- <-]. rewrite Hid. split; [done|].
      intros e' [= <-]. right. exists p, (SaveRaises e opened), pr.
      split; [apply list_elem_of_here|]. left. by exists opened.
    + destruct Hcase as [(e & -> & -> & Hid & _)
                        |(_ & _ & [[-> Hn]|[_ [_ Hn]]])].
      * intros [= <- <-]. rewrite Hid. split; [done|].
        intros e' [= <-]. right. exists p, SaveReturns, (Some e).
        split; [apply list_elem_of_here|]. by right.
      * apply Hlift. congruence.
      * congruence.
  - intros [= <- <-]. split; [done|].
    intros e' [= <-]. left. apply list_elem_of_here.
Qed.

(** X13.  When the loop starts with a well-formed [last_id], it keeps one,
    and [next_id] never raises in the loop: an exception that ends the loop
    is one that the stream, a save or a [print] of the run has raised. *)
Theorem main_loop_keeps_label_well_formed (reload : document → document)
    (stream : list event) (st st' : state) (o : option exn) :
  well_formed (last_id st) = true →
  main_loop reload stream st = (st', o) →
  well_formed (last_id st') = true
  ∧ (∀ e, o = Some e →
       StreamRaises e ∈ stream
       ∨ ∃ p sv pr,
           Deliver p sv pr ∈ stream
           ∧ ((∃ opened, sv = SaveRaises e opened)
              ∨ (sv = SaveReturns ∧ pr = Some e))).
Proof. apply main_loop_well_formed. Qed.

Lemma main_loop_keeps_label_well_formed_witness :
  well_formed
    (last_id (main_loop rewriting_reload
                [Deliver post_k1 SaveReturns None;
                 Deliver post_k2 SaveReturns (Some BrokenPipeError)]
                fresh_state).1) = true
  ∧ (∀ e, Some BrokenPipeError = Some e →
       StreamRaises e ∈ [Deliver post_k1 SaveReturns None;
                         Deliver post_k2 SaveReturns (Some BrokenPipeError)]
       ∨ ∃ p sv pr,
           Deliver p sv pr ∈ [Deliver post_k1 SaveReturns None;
                              Deliver post_k2 SaveReturns
                                (Some BrokenPipeError)]
           ∧ ((∃ opened, sv = SaveRaises e opened)
              ∨ (sv = SaveReturns ∧ pr = Some e))).
Proof.
  apply (main_loop_keeps_label_well_formed rewriting_reload
           [Deliver post_k1 SaveReturns None;
            Deliver post_k2 SaveReturns (Some BrokenPipeError)]
           fresh_state);
    reflexivity.
Defined.

(** ** Rows are labelled in sequence *)

Lemma nth_label_label_at n : nth_label n = Ok (label_at n).
Proof.
  unfold label_at. by destruct (nth_label_well_formed n) as (s & -> & _).
Qed.

Lemma next_id_label_at n : next_id (Some (label_at n)) = Ok (label_at (S n)).
Proof.
  rewrite <- (nth_label_S n _ (nth_label_label_at n)).
  apply nth_label_label_at.
Qed.

Lemma main_loop_labels reload stream :
  ∀ st st' o m,
    last_id st = label_at m →
    main_loop reload stream st = (st', o) →
    ∃ posts : list post,
      posts `sublist_of` delivered stream
      ∧ table_ st'
        = table_ st ++ imap (λ i p, new_row (label_at (m + i)) p) posts
      ∧ (o = None → last_id st' = label_at (m + length posts))
      ∧ (∀ e, o = Some e →
           (StreamRaises e ∈ stream
            ∧ last_id st' = label_at (m + length posts))
           ∨ (posts ≠ []
              ∧ last_id st' = label_at (m + length posts - 1)
              ∧ ∃ p sv pr,
                  Deliver p sv pr ∈ stream
                  ∧ ((∃ opened, sv = SaveRaises e opened)
                     ∨ (sv = SaveReturns ∧ pr = Some e)))).
Proof.
  induction stream as [|[p sv pr|e] stream IH]; intros st st' o m Hlast;
    simpl.
  - intros [= <- <-]. exists []. split_and!.
    + apply sublist_nil_l.
    + simpl. by rewrite app_nil_r.
    + intros _. simpl. by rewrite Nat.add_0_r.
    + discriminate.
  - assert (Hlift : ∀ e,
              (∃ p' sv' pr',
                 Deliver p' sv' pr' ∈ stream
                 ∧ ((∃ opened, sv' = SaveRaises e opened)
                    ∨ (sv' = SaveReturns ∧ pr' = Some e))) →
              ∃ p' sv' pr',
                Deliver p' sv' pr' ∈ Deliver p sv pr :: stream
                ∧ ((∃ opened, sv' = SaveRaises e opened)
                   ∨ (sv' = SaveReturns ∧ pr' = Some e))).
    { intros e (p' & sv' & pr' & Hin & H).
      exists p', sv', pr'. split; [|done]. by apply list_elem_of_further. }
    destruct (loop_body_cases reload p sv pr st)
      as [[_ ->]|(_ & st1 & o1 & -> & Ht & _ & _ & Hcase)].
    + intros Hrun.
      destruct (IH _ _ _ m Hlast Hrun) as (posts & Hsub & Htab & H1 & H2).
      exists posts. split_and!; try done.
      * by apply sublist_cons.
      * intros e He. destruct (H2 e He) as [[Hin Hl]|(Hne & Hl & Hex)].
        -- left. split; [|done]. by apply list_elem_of_further.
        -- right. split_and!; try done.
           by apply Hlift.
    + assert (Hone : ∀ e,
                (∃ opened, sv = SaveRaises e opened)
                ∨ (sv = SaveReturns ∧ pr = Some e) →
                last_id st1 = last_id st →
                ∃ posts : list post,
                  posts `sublist_of` p :: delivered stream
                  ∧ table_ st1
                    = table_ st
                      ++ imap (λ i p, new_row (label_at (m + i)) p) posts
                  ∧ (Some e = None →
                     last_id st1 = label_at (m + length posts))
                  ∧ (∀ e', Some e = Some e' →
                       (StreamRaises e' ∈ Deliver p sv pr :: stream
                        ∧ last_id st1 = label_at (m + length posts))
                       ∨ (posts ≠ []
                          ∧ last_id st1 = label_at (m + length posts - 1)
                          ∧ ∃ p' sv' pr',
                              Deliver p' sv' pr' ∈ Deliver p sv pr :: stream
                              ∧ ((∃ opened, sv' = SaveRaises e' opened)
                                 ∨ (sv' = SaveReturns ∧ pr' = Some e'))))).
      { intros e Hraise Hid. exists [p]. split_and!; try done.
        - apply sublist_skip, sublist_nil_l.
        - rewrite Ht, Hlast. simpl. by rewrite Nat.add_0_r.
        - intros e' [= <-]. right. split_and!; try done.
          + rewrite Hid, Hlast. simpl. f_equal. lia.
          + exists p, sv, pr. split; [apply list_elem_of_here|done]. }
      destruct Hcase as [(e & opened & Hsv & -> & _ & Hid & _)
                        |(Hsv & _ & Hcase)].
      * intros [= <- <-]. apply (Hone e); [|done]. left. by exists opened.
      * destruct Hcase as [(e & Hpr & -> & Hid & _)|(_ & _ & Ho)].
        -- intros [= <- <-]. apply (Hone e); [|done]. by right.
        -- rewrite Hlast, next_id_label_at in Ho.
           destruct Ho as [[-> Hn]|(_ & _ & Hn)]; [|discriminate].
           injection Hn as Hn. symmetry in Hn.
           intros Hrun.
           destruct (IH _ _ _ (S m) Hn Hrun)
             as (posts & Hsub & Htab & H1 & H2).
           exists (p :: posts). split_and!.
           ++ by apply sublist_skip.
           ++ rewrite Htab, Ht, Hlast, <- app_assoc. simpl.
              rewrite Nat.add_0_r. do 2 f_equal.
              apply imap_ext. intros i x _. simpl. f_equal. f_equal. lia.
           ++ intros Hnone. rewrite (H1 Hnone). simpl. f_equal. lia.
           ++ intros e He.
              destruct (H2 e He) as [[Hin Hl]|(Hne & Hl & Hex)].
              ** left. split; [by apply list_elem_of_further|].
                 rewrite Hl. simpl. f_equal. lia.
              ** right. split_and!; try done.
                 --- rewrite Hl. simpl. f_equal.
                     destruct posts; [done|]. simpl. lia.
                 --- by apply Hlift.
  - intros [= <- <-]. exists []. split_and!.
    + apply sublist_nil_l.
    + simpl. by rewrite app_nil_r.
    + discriminate.
    + intros e' [= <-]. left. split; [apply list_elem_of_here|].
      simpl. by rewrite Nat.add_0_r.
Qed.

(** X14.  When [last_id] is label number [m] of the sequence, the rows that
    the loop adds are labelled m, m + 1, m + 2 and so on without a gap, one
    for each recorded post, in the order of delivery.  At the end [last_id]
    is the label after the last row, unless the save or the [print] of the
    last row raised: then it is the label of that row. *)
Theorem main_loop_labels_rows_in_sequence (reload : document → document)
    (stream : list event) (st st' : state) (o : option exn) (m : nat) :
  last_id st = label_at m →
  main_loop reload stream st = (st', o) →
  ∃ posts : list post,
    posts `sublist_of` delivered stream
    ∧ table_ st'
      = table_ st ++ imap (λ i p, new_row (label_at (m + i)) p) posts
    ∧ (o = None → last_id st' = label_at (m + length posts))
    ∧ (∀ e, o = Some e →
         (StreamRaises e ∈ stream
          ∧ last_id st' = label_at (m + length posts))
         ∨ (posts ≠ []
            ∧ last_id st' = label_at (m + length posts - 1)
            ∧ ∃ p sv pr,
                Deliver p sv pr ∈ stream
                ∧ ((∃ opened, sv = SaveRaises e opened)
                   ∨ (sv = SaveReturns ∧ pr = Some e)))).
Proof. apply main_loop_labels. Qed.

Lemma main_loop_labels_rows_in_sequence_witness :
  ∃ posts : list post,
    posts `sublist_of`
      delivered [Deliver post_k1 SaveReturns None;
                 Deliver post_k1 SaveReturns None;
                 Deliver post_k2 SaveReturns None;
                 Deliver post_k3 (SaveRaises IOError false) None]
    ∧ table_ (main_loop rewriting_reload
                [Deliver post_k1 SaveReturns None;
                 Deliver post_k1 SaveReturns None;
                 Deliver post_k2 SaveReturns None;
                 Deliver post_k3 (SaveRaises IOError false) None]
                fresh_state).1
      = table_ fresh_state
        ++ imap (λ i p, new_row (label_at (0 + i)) p) posts
    ∧ (Some IOError = None →
       last_id (main_loop rewriting_reload
                  [Deliver post_k1 SaveReturns None;
                   Deliver post_k1 SaveReturns None;
                   Deliver post_k2 SaveReturns None;
                   Deliver post_k3 (SaveRaises IOError false) None]
                  fresh_state).1
       = label_at (0 + length posts))
    ∧ (∀ e, Some IOError = Some e →
         (StreamRaises e
            ∈ [Deliver post_k1 SaveReturns None;
               Deliver post_k1 SaveReturns None;
               Deliver post_k2 SaveReturns None;
               Deliver post_k3 (SaveRaises IOError false) None]
          ∧ last_id (main_loop rewriting_reload
                       [Deliver post_k1 SaveReturns None;
                        Deliver post_k1 SaveReturns None;
                        Deliver post_k2 SaveReturns None;
                        Deliver post_k3 (SaveRaises IOError false) None]
                       fresh_state).1
            = label_at (0 + length posts))
         ∨ (posts ≠ []
            ∧ last_id (main_loop rewriting_reload
                         [Deliver post_k1 SaveReturns None;
                          Deliver post_k1 SaveReturns None;
                          Deliver post_k2 SaveReturns None;
                          Deliver post_k3 (SaveRaises IOError false) None]
                         fresh_state).1
              = label_at (0 + length posts - 1)
            ∧ ∃ p sv pr,
                Deliver p sv pr
                  ∈ [Deliver post_k1 SaveReturns None;
                     Deliver post_k1 SaveReturns None;
                     Deliver post_k2 SaveReturns None;
                     Deliver post_k3 (SaveRaises IOError false) None]
                ∧ ((∃ opened, sv = SaveRaises e opened)
                   ∨ (sv = SaveReturns ∧ pr = Some e)))).
Proof.
  apply (main_loop_labels_rows_in_sequence rewriting_reload
           [Deliver post_k1 SaveReturns None;
            Deliver post_k1 SaveReturns None;
            Deliver post_k2 SaveReturns None;
            Deliver post_k3 (SaveRaises IOError false) None] fresh_state);
    reflexivity.
Defined.

(** ** Stopping and starting again *)

Lemma loop_body_same_rows reload p sv pr st st' :
  last_id st = last_id st' →
  (id p ∈ seen_posts st ↔ id p ∈ seen_posts st') →
  ∃ rows : table,
    table_ (loop_body reload p sv pr st).1 = table_ st ++ rows
    ∧ table_ (loop_body reload p sv pr st').1 = table_ st' ++ rows
    ∧ last_id (loop_body reload p sv pr st).1
      = last_id (loop_body reload p sv pr st').1
    ∧ (loop_body reload p sv pr st).2 = (loop_body reload p sv pr st').2
    ∧ (∀ q, (q ∈ seen_posts st ↔ q ∈ seen_posts st') →
            (q ∈ seen_posts (loop_body reload p sv pr st).1
             ↔ q ∈ seen_posts (loop_body reload p sv pr st').1)).
Proof.
  intros Hl Hseen. unfold loop_body.
  destruct (decide (id p ∈ seen_posts st)) as [Hin|Hout].
  - rewrite !bool_decide_eq_true_2 by tauto. simpl.
    exists []. rewrite !app_nil_r. by split_and!.
  - rewrite !bool_decide_eq_false_2 by tauto.
    rewrite <- Hl. exists [new_row (last_id st) p].
    destruct sv as [|e opened];
      [destruct pr as [e|]; unfold print; cbv beta iota;
       [|destruct (next_id (Some (last_id st)))]|];
      simpl; (split_and!; [done|done|done|done|
        intros q Hq; rewrite !elem_of_union; tauto]).
Qed.

Lemma main_loop_same_rows reload stream :
  ∀ st st',
    last_id st = last_id st' →
    (∀ p sv pr, Deliver p sv pr ∈ stream →
                (id p ∈ seen_posts st ↔ id p ∈ seen_posts st')) →
    ∃ rows : table,
      table_ (main_loop reload stream st).1 = table_ st ++ rows
      ∧ table_ (main_loop reload stream st').1 = table_ st' ++ rows
      ∧ last_id (main_loop reload stream st).1
        = last_id (main_loop reload stream st').1
      ∧ (main_loop reload stream st).2 = (main_loop reload stream st').2.
Proof.
  induction stream as [|[p sv pr|e] stream IH]; intros st st' Hl Hseen;
    simpl.
  - exists []. rewrite !app_nil_r. by split_and!.
  - destruct (loop_body_same_rows reload p sv pr st st' Hl
                (Hseen p sv pr (list_elem_of_here _ _)))
      as (rows1 & Ht & Ht' & Hl1 & Ho & Hseen1).
    destruct (loop_body reload p sv pr st) as [st1 o1].
    destruct (loop_body reload p sv pr st') as [st1' o1'].
    simpl in Ht, Ht', Hl1, Ho, Hseen1. subst o1'.
    destruct o1 as [e|]; [by exists rows1|].
    destruct (IH st1 st1' Hl1) as (rows & H1 & H2 & H3 & H4).
    { intros q sv' pr' Hq. apply Hseen1, (Hseen q sv' pr').
      by apply list_elem_of_further. }
    exists (rows1 ++ rows). rewrite H1, H2, Ht, Ht', <- !app_assoc.
    by split_and!.
  - exists []. rewrite !app_nil_r. by split_and!.
Qed.

(** X15.  Stopping the process between two deliveries and starting it again
    changes nothing for the labels: for a process started with a well-formed
    label, when the posts that follow were not seen before the stop, the run
    after the new start adds the same rows, ends with the same [last_id]
    and ends the same way as the run that was never stopped.  The rows of
    before come back as the file gives them. *)
Theorem restart_between_deliveries (reload : document → document)
    (file : option file_content) (st0 st0' st1 : state)
    (pr1 pr2 : option exn) (stream1 stream2 : list event) :
  keeps_labels reload →
  startup file = Ok st0 → banner pr1 pr2 st0 = Ok st0' →
  well_formed (last_id st0) = true →
  main_loop reload stream1 st0' = (st1, None) →
  (∀ p sv pr, Deliver p sv pr ∈ stream2 → id p ∉ seen_posts st1) →
  ∃ st1r,
    startup (ods_file st1) = Ok st1r
    ∧ last_id st1r = last_id st1
    ∧ ∀ pr1' pr2' st1',
        banner pr1' pr2' st1r = Ok st1' →
        ∃ rows : table,
          table_ (main_loop reload stream2 st1').1 = table_ st1' ++ rows
          ∧ table_ (main_loop reload (stream1 ++ stream2) st0').1
            = table_ st1 ++ rows
          ∧ last_id (main_loop reload stream2 st1').1
            = last_id (main_loop reload (stream1 ++ stream2) st0').1
          ∧ (main_loop reload stream2 st1').2
            = (main_loop reload (stream1 ++ stream2) st0').2.
Proof.
  intros Hkeeps H0 Hb Hwf Hrun Hfresh.
  destruct (started_resumable _ _ _ _ _ H0 Hb) as [Hres0 Hl0].
  rewrite <- Hl0 in Hwf.
  destruct (main_loop_resumable reload stream1 st0' st1 Hkeeps Hwf Hres0 Hrun)
    as [_ [Hres _]].
  destruct (startup (ods_file st1)) as [st1r|e] eqn:E; [|discriminate].
  injection Hres as Hlast.
  exists st1r. split_and!; [done|done|].
  intros pr1' pr2' st1' Hb'.
  destruct (banner_fields _ _ _ _ Hb') as (_ & _ & Hl' & Hs' & _).
  destruct (startup_fields _ _ E) as (_ & Hempty & _).
  rewrite main_loop_app, Hrun.
  destruct (main_loop_same_rows reload stream2 st1' st1)
    as (rows & H1 & H2 & H3 & H4).
  - by rewrite Hl'.
  - intros p sv pr Hp. rewrite Hs', Hempty.
    split; [by intros ?%elem_of_empty|].
    intros Hin. by destruct (Hfresh p sv pr Hp).
  - by exists rows.
Qed.

Lemma restart_between_deliveries_witness :
  ∃ st1r,
    startup (ods_file state_after_k1) = Ok st1r
    ∧ last_id st1r = last_id state_after_k1
    ∧ ∀ pr1' pr2' st1',
        banner pr1' pr2' st1r = Ok st1' →
        ∃ rows : table,
          table_ (main_loop rewriting_reload
                    [Deliver post_k2 SaveReturns None;
                     StreamRaises RequestException] st1').1
          = table_ st1' ++ rows
          ∧ table_ (main_loop rewriting_reload
                      ([Deliver post_k1 SaveReturns None]
                       ++ [Deliver post_k2 SaveReturns None;
                           StreamRaises RequestException])
                      fresh_state).1
            = table_ state_after_k1 ++ rows
          ∧ last_id (main_loop rewriting_reload
                       [Deliver post_k2 SaveReturns None;
                        StreamRaises RequestException] st1').1
            = last_id (main_loop rewriting_reload
                         ([Deliver post_k1 SaveReturns None]
                          ++ [Deliver post_k2 SaveReturns None;
                              StreamRaises RequestException])
                         fresh_state).1
          ∧ (main_loop rewriting_reload
               [Deliver post_k2 SaveReturns None;
                StreamRaises RequestException] st1').2
            = (main_loop rewriting_reload
                 ([Deliver post_k1 SaveReturns None]
                  ++ [Deliver post_k2 SaveReturns None;
                      StreamRaises RequestException])
                 fresh_state).2.
Proof.
  apply (restart_between_deliveries rewriting_reload None
           (mkState [header] [] (ustr "A001") ∅ None [])
           fresh_state state_after_k1 None None).
  - apply rewriting_reload_keeps_labels.
  - reflexivity.
  - reflexivity.
  - reflexivity.
  - reflexivity.
  - intros p sv pr Hp.
    apply elem_of_cons in Hp as [[= -> -> ->]|Hp]; [compute_done|].
    apply elem_of_cons in Hp as [Hp|Hp]; [discriminate Hp|].
    by apply elem_of_nil in Hp.
Defined.

(** X16.  What was seen is forgotten at a new start: a post that was
    recorded before the stop is skipped when it is delivered again in the
    same run, and gets a second row, with the label the new process is about
    to use, when it is delivered again after the start.  For a process
    started with a well-formed label this is the label that the stopped
    process was about to use. *)
Theorem restart_forgets_seen_posts (reload : document → document)
    (file : option file_content) (st0 st0' st1 st1r st1' : state)
    (pr1 pr2 pr1' pr2' : option exn)
    (stream : list event) (p : post) (sv : save_fate) (pr : option exn) :
  startup file = Ok st0 → banner pr1 pr2 st0 = Ok st0' →
  main_loop reload stream st0' = (st1, None) →
  id p ∈ seen_posts st1 →
  startup (ods_file st1) = Ok st1r → banner pr1' pr2' st1r = Ok st1' →
  loop_body reload p sv pr st1 = (st1, None)
  ∧ table_ (loop_body reload p sv pr st1').1
    = table_ st1' ++ [new_row (last_id st1') p]
  ∧ (keeps_labels reload → well_formed (last_id st0) = true →
     last_id st1' = last_id st1).
Proof.
  intros H0 Hb Hrun Hseen H1 Hb'.
  destruct (banner_fields _ _ _ _ Hb') as (_ & _ & Hl' & Hs' & _).
  destruct (startup_fields _ _ H1) as (_ & Hempty & _).
  split_and!.
  - by apply loop_body_skip.
  - destruct (loop_body_cases reload p sv pr st1')
      as [[Hin _]|(_ & st2 & o & -> & Htab & _)]; [|done].
    rewrite Hs', Hempty in Hin. by apply elem_of_empty in Hin.
  - intros Hkeeps Hwf.
    destruct (started_resumable _ _ _ _ _ H0 Hb) as [Hres0 Hl0].
    rewrite <- Hl0 in Hwf.
    destruct (main_loop_resumable reload stream st0' st1 Hkeeps Hwf Hres0
                Hrun) as [_ [Hres _]].
    rewrite H1 in Hres. injection Hres as Hres. by rewrite Hl'.
Qed.

Lemma restart_forgets_seen_posts_witness :
  loop_body rewriting_reload post_k1 SaveReturns None state_after_k1
  = (state_after_k1, None)
  ∧ table_ (loop_body rewriting_reload post_k1 SaveReturns None
              (mkState (table_ state_after_k1) [] (ustr "A002") ∅
                 (ods_file state_after_k1)
                 [ ustr "Starting Reddit console scraper. Last ID = A002";
                   ustr "Press CTRL+C to stop." ++ [10] ])).1
    = table_ (mkState (table_ state_after_k1) [] (ustr "A002") ∅
                (ods_file state_after_k1)
                [ ustr "Starting Reddit console scraper. Last ID = A002";
                  ustr "Press CTRL+C to stop." ++ [10] ])
      ++ [new_row
            (last_id
               (mkState (table_ state_after_k1) [] (ustr "A002") ∅
                  (ods_file state_after_k1)
                  [ ustr "Starting Reddit console scraper. Last ID = A002";
                    ustr "Press CTRL+C to stop." ++ [10] ]))
            post_k1]
  ∧ (keeps_labels rewriting_reload →
     well_formed (last_id (mkState [header] [] (ustr "A001") ∅ None []))
     = true →
     last_id (mkState (table_ state_after_k1) [] (ustr "A002") ∅
                (ods_file state_after_k1)
                [ ustr "Starting Reddit console scraper. Last ID = A002";
                  ustr "Press CTRL+C to stop." ++ [10] ])
     = last_id state_after_k1).
Proof.
  apply (restart_forgets_seen_posts rewriting_reload None
           (mkState [header] [] (ustr "A001") ∅ None [])
           fresh_state state_after_k1
           (mkState (table_ state_after_k1) [] (ustr "A002") ∅
              (ods_file state_after_k1) [])
           _ None None None None
           [Deliver post_k1 SaveReturns None] post_k1).
  - reflexivity.
  - reflexivity.
  - reflexivity.
  - compute_done.
  - reflexivity.
  - reflexivity.
Defined.

(** ** What is printed *)




(** ** Writing a row and reading it back *)

(** X18.  The row that the loop builds for a label and the read of the
    start-up code fit together: from a table that ends with such a row the
    label is read back, whatever the post and the rows before; only an
    empty label, for which odfpy writes no text node, cannot be read. *)
Theorem read_last_id_of_new_row (t : table) (l : pystr) (p : post) :
  read_last_id (t ++ [new_row l p])
  = match l with
    | [] => Raise AttributeError
    | _ :: _ => Ok l
    end.
Proof.
  unfold read_last_id, index_last. rewrite last_snoc. by destruct l.
Qed.
